(** * Item controllers of the Vingo backend

    A shallow embedding of [backend/controllers/item.controllers.js]: the
    eight request handlers ([addItem], [editItem], [getItemById],
    [deleteItem], [getItemByCity], [getItemsByShop], [searchItems],
    [rating]) over an explicit world made of the two Mongoose collections,
    the process-wide [NodeCache] instance, the clock and the JavaScript
    heap (object identities).

    Conventions of the model
    - JavaScript numbers are IEEE-754 doubles: Rocq's primitive [float].
    - The texts of the model are the strings of ASCII code units.  On
      these, [toLowerCase] and the [i] flag of a regular expression are the
      mapping of the letters A to Z.  Where the code maps the case of a
      string that holds another code unit, or tests a pattern on such a
      string or on one with a line terminator, the model gives no answer:
      the request is outside the model ([Stuck], [OutOfModel]).
    - An awaited call of a collaborator (persistence store, asset uploader)
      may reject: the world carries the outcomes that the environment will
      give ([w_faults], [w_upload]).
    - A [try { ... } catch] block is the error monad [M]; the world is
      threaded through a throw, as a write that happened before it stays. *)

From Stdlib Require Import ZArith Lia Floats Ascii String.
From stdpp Require Import base option list strings gmap.

Open Scope string_scope.

(** ** JavaScript strings *)

(** The code units of the ASCII range. *)
Definition is_ascii (c : ascii) : bool := (nat_of_ascii c <? 128)%nat.

Definition is_upper (c : ascii) : bool :=
  let n := nat_of_ascii c in (65 <=? n)%nat && (n <=? 90)%nat.

(** The lower case of an ASCII code unit. *)
Definition lower_ascii (c : ascii) : ascii :=
  if is_upper c then ascii_of_nat (nat_of_ascii c + 32) else c.

(** [String.prototype.toLowerCase] on a string of ASCII code units.  The
    handlers apply it to [ascii_only] strings and nowhere else: a request
    whose city or query holds another code unit is outside the model. *)
Fixpoint toLowerCase (s : string) : string :=
  match s with
  | EmptyString => EmptyString
  | String c s' => String (lower_ascii c) (toLowerCase s')
  end.

Fixpoint chars (s : string) : list ascii :=
  match s with
  | EmptyString => []
  | String c s' => c :: chars s'
  end.

Definition ascii_only (s : string) : bool := forallb is_ascii (chars s).

(** A plain text: ASCII code units, none of them a line terminator (line
    feed, vertical tab, form feed, carriage return).  On the plain texts
    the end anchor and the dot of a pattern have one meaning. *)
Definition is_plain (c : ascii) : bool :=
  let n := nat_of_ascii c in
  is_ascii c && negb ((10 <=? n)%nat && (n <=? 13)%nat).

Definition plain (s : string) : bool := forallb is_plain (chars s).

Definition plain_field (f : option string) : bool :=
  match f with
  | Some s => plain s
  | None => true
  end.

(** [starts p s]: [p] is a prefix of [s]. *)
Fixpoint starts (p s : string) : bool :=
  match p, s with
  | EmptyString, _ => true
  | String a p', String b s' => bool_decide (a = b) && starts p' s'
  | String _ _, EmptyString => false
  end.

(** [includes q s]: [q] occurs in [s] ([String.prototype.includes]). *)
Fixpoint includes (q s : string) : bool :=
  starts q s ||
  match s with
  | EmptyString => false
  | String _ s' => includes q s'
  end.

(** The words of the specification, on ASCII texts: "case-insensitively
    contains" and "exact string, case-insensitive". *)
Definition contains_ci (q s : string) : bool :=
  includes (toLowerCase q) (toLowerCase s).

Definition equal_ci (a b : string) : bool :=
  bool_decide (toLowerCase a = toLowerCase b).

(** ** Regular expressions

    The patterns that reach the store are built from request strings
    ([new RegExp(`^${city}$`, "i")], [{ $regex: query, $options: "i" }]).
    The model covers the fragment of the pattern language made of literal
    ASCII characters, the dot, the class escapes [\d \D \w \W \s \S], an
    escaped punctuation character and the two anchors; [compile] answers
    [None] on any other pattern (alternation, repetition, groups, brackets,
    a code unit outside ASCII, ...), which the handlers report as [Stuck]:
    outside the model.  A pattern is tested on plain texts only, where the
    end anchor is the end of the subject and the [i] flag is the case of
    the letters A to Z. *)

Inductive atom :=
| ALit (c : ascii)
| AAny
| ADigit (neg : bool)
| AWord (neg : bool)
| ASpace (neg : bool)
| ABegin
| AEnd.

Definition is_digit (c : ascii) : bool :=
  let n := nat_of_ascii c in (48 <=? n)%nat && (n <=? 57)%nat.

Definition is_lower (c : ascii) : bool :=
  let n := nat_of_ascii c in (97 <=? n)%nat && (n <=? 122)%nat.

Definition is_word (c : ascii) : bool :=
  is_digit c || is_upper c || is_lower c || bool_decide (c = "_"%char).

Definition is_space (c : ascii) : bool :=
  let n := nat_of_ascii c in
  bool_decide (n = 32) || ((9 <=? n)%nat && (n <=? 13)%nat).

(** The characters with a meaning of their own in a pattern. *)
Definition is_meta (c : ascii) : bool :=
  bool_decide (c ∈ chars "\^$.|?*+()[]{}").

(** A string of ASCII characters that a pattern takes as they are. *)
Definition literal (s : string) : bool :=
  forallb (λ c, is_ascii c && negb (is_meta c)) (chars s).




Definition escape (c : ascii) : option atom :=
  if bool_decide (c = "d"%char) then Some (ADigit false)
  else if bool_decide (c = "D"%char) then Some (ADigit true)
  else if bool_decide (c = "w"%char) then Some (AWord false)
  else if bool_decide (c = "W"%char) then Some (AWord true)
  else if bool_decide (c = "s"%char) then Some (ASpace false)
  else if bool_decide (c = "S"%char) then Some (ASpace true)
  else if is_word c || negb (is_ascii c) then None
  else Some (ALit c).

Fixpoint compile (p : string) : option (list atom) :=
  match p with
  | EmptyString => Some []
  | String c rest =>
      if bool_decide (c = "\"%char) then
        match rest with
        | EmptyString => None
        | String e rest' =>
            a ← escape e; (a ::.) <$> compile rest'
        end
      else if bool_decide (c = "."%char) then (AAny ::.) <$> compile rest
      else if bool_decide (c = "^"%char) then (ABegin ::.) <$> compile rest
      else if bool_decide (c = "$"%char) then (AEnd ::.) <$> compile rest
      else if is_meta c || negb (is_ascii c) then None
      else (ALit c ::.) <$> compile rest
  end.

(** One character of a plain text against one atom; [ci] is the [i]
    flag. *)
Definition atom_char (ci : bool) (a : atom) (c : ascii) : bool :=
  match a with
  | ALit l =>
      if ci then bool_decide (lower_ascii l = lower_ascii c)
      else bool_decide (l = c)
  | AAny => negb (bool_decide (nat_of_ascii c = 10))
  | ADigit neg => xorb neg (is_digit c)
  | AWord neg => xorb neg (is_word c)
  | ASpace neg => xorb neg (is_space c)
  | ABegin | AEnd => false
  end.

(** The atom with its letter in lower case. *)
Definition fold_atom (a : atom) : atom :=
  match a with
  | ALit c => ALit (lower_ascii c)
  | _ => a
  end.

(** [match_here ci bos as s]: the atoms match a prefix of [s]; [bos] tells
    whether [s] begins at the beginning of the subject. *)
Fixpoint match_here (ci bos : bool) (atoms : list atom) (s : string) : bool :=
  match atoms with
  | [] => true
  | ABegin :: rest => bos && match_here ci bos rest s
  | AEnd :: rest =>
      match s with
      | EmptyString => match_here ci bos rest s
      | String _ _ => false
      end
  | a :: rest =>
      match s with
      | EmptyString => false
      | String c s' => atom_char ci a c && match_here ci false rest s'
      end
  end.

Fixpoint match_from (ci bos : bool) (atoms : list atom) (s : string) : bool :=
  match_here ci bos atoms s ||
  match s with
  | EmptyString => false
  | String _ s' => match_from ci false atoms s'
  end.

(** [regex_test p ci s]: does the pattern [p] match somewhere in [s]?
    [None]: the pattern is outside the fragment, or the subject is not a
    plain text. *)
Definition regex_test (p : string) (ci : bool) (s : string) : option bool :=
  atoms ← compile p;
  if plain s then Some (match_from ci true atoms s) else None.

(** ** JavaScript numbers *)

Definition num := float.

(** [!x] for a number: zero and NaN are falsy. *)
Definition num_falsy (x : num) : bool :=
  PrimFloat.eqb x 0%float || PrimFloat.is_nan x.

(** The order in which the store sorts numbers: NaN first, then the numeric
    order. *)
Definition num_le (a b : num) : bool :=
  PrimFloat.is_nan a || PrimFloat.leb a b.

(** ** Documents

    An [ObjectId] value is its 24 hexadecimal digits.  A hydrated document
    holds [ObjectId] objects, each with an identity on the heap; the
    collections and the lean (plain) results hold the values. *)

Definition oid := string.

Record ObjectId := { oref : nat; ohex : oid }.

(** [a !== b] on two objects: they are not the same object. *)
Definition strict_ne (a b : ObjectId) : bool := negb (oref a =? oref b)%nat.

Record Rating := { average : num; count : num }.

(** Modelled from the spec: the schema of [models/item.model.js], the
    fields of an Item in the data model, with the [updatedAt] time stamp
    that the handlers sort on.  [I] is the representation of an id. *)
Record ItemDoc (I : Type) := {
  i_id : I;
  i_name : option string;
  i_category : option string;
  i_foodType : option string;
  i_price : option num;
  i_image : option string;
  i_rating : Rating;
  i_shop : I;
  i_updatedAt : Z;
}.
Arguments i_id {I}.
Arguments i_name {I}.
Arguments i_category {I}.
Arguments i_foodType {I}.
Arguments i_price {I}.
Arguments i_image {I}.
Arguments i_rating {I}.
Arguments i_shop {I}.
Arguments i_updatedAt {I}.

(** Modelled from the spec: the schema of [models/shop.model.js], the
    fields of a Shop in the data model. *)
Record ShopDoc (I : Type) := {
  s_id : I;
  s_name : string;
  s_image : string;
  s_city : string;
  s_owner : I;
  s_items : list I;
}.
Arguments s_id {I}.
Arguments s_name {I}.
Arguments s_image {I}.
Arguments s_city {I}.
Arguments s_owner {I}.
Arguments s_items {I}.

(** Modelled from the spec: a new Item has no rating yet, [count = 0]. *)
Definition no_rating : Rating := {| average := 0%float; count := 0%float |}.

(** The result of [.select(itemProjection).lean()]. *)
Record ItemView := {
  v_id : oid;
  v_name : option string;
  v_category : option string;
  v_foodType : option string;
  v_price : option num;
  v_image : option string;
  v_rating : Rating;
  v_shop : oid;
}.

Definition itemProjection (it : ItemDoc oid) : ItemView :=
  {| v_id := i_id it; v_name := i_name it; v_category := i_category it;
     v_foodType := i_foodType it; v_price := i_price it;
     v_image := i_image it; v_rating := i_rating it; v_shop := i_shop it |}.

(** The result of [.select(shopProjection).lean()]. *)
Record ShopView := {
  sv_id : oid;
  sv_name : string;
  sv_image : string;
  sv_city : string;
}.

Definition shopProjection (s : ShopDoc oid) : ShopView :=
  {| sv_id := s_id s; sv_name := s_name s; sv_image := s_image s;
     sv_city := s_city s |}.

(** The result of [.select("_id name image").lean()]. *)
Record ShopBrief := { sb_id : oid; sb_name : string; sb_image : string }.

Definition select_id_name_image (s : ShopDoc oid) : ShopBrief :=
  {| sb_id := s_id s; sb_name := s_name s; sb_image := s_image s |}.

Record ShopInfo := { si_name : string; si_image : string }.

Record ItemWithShop := { ws_item : ItemView; shopInfo : option ShopInfo }.

(** A shop as the mutations answer it: [items] populated, sorted. *)
Record PopulatedShop := {
  ps_id : oid;
  ps_name : string;
  ps_image : string;
  ps_city : string;
  ps_owner : oid;
  ps_owner_populated : bool;
  ps_items : list (ItemDoc oid);
}.

(** What the three cached reads cache and answer. *)
Inductive Payload :=
| PCity (items : list ItemWithShop)
| PShop (shop : ShopView) (items : list ItemView)
| PSearch (items : list ItemView).

(** ** Responses *)

Inductive JsError := TypeError | CastError | StoreError | UploadError.

Inductive Body :=
| BMessage (text : string)
| BFailure (text : string) (error : JsError)
| BShop (shop : option PopulatedShop)
| BItem (item : ItemDoc oid)
| BPayload (p : Payload)
| BRating (r : Rating).

Record Response := { status : nat; body : Body }.

(** What a handler leaves: a response, nothing ([return null] before any
    [res] call), or an execution that the model does not cover. *)
Inductive Result :=
| Replied (r : Response)
| NoReply
| OutOfModel.

(** ** Requests *)

(** A value of [req.query]: absent, a string, or the array or object that
    a repeated or bracketed key parses to. *)
Inductive QueryParam := QAbsent | QString (s : string) | QNested.

(** What the handlers read of a request.  [userId] is set by the
    authentication middleware and a route parameter is a string; a field
    of [req.body] may be absent, and [price] and [rating] are numbers when
    they are present. *)
Record Request := {
  userId : string;
  file : option string;
  body_name : option string;
  body_category : option string;
  body_foodType : option string;
  body_price : option num;
  body_itemId : option string;
  body_rating : option num;
  params_itemId : string;
  params_shopId : string;
  params_city : option string;
  query_query : QueryParam;
  query_city : QueryParam;
}.

(** ** The world *)

(** An entry of the cache: the payload and the time, in milliseconds,
    until which it is served. *)
Record CacheEntry := { ce_value : Payload; ce_expires : Z }.

(** What the handlers share: the two collections in their natural order,
    the cache, the clock ([Date.now()], in milliseconds), the generator of
    ids and the next free identity of the heap; and what the environment
    will do: [w_faults] tells which of the coming calls of the store
    reject, [w_upload] gives the URL of an uploaded file, or [None] when
    the upload fails. *)
Record World := {
  w_items : list (ItemDoc oid);
  w_shops : list (ShopDoc oid);
  w_cache : gmap string CacheEntry;
  w_now : Z;
  w_next_oid : N;
  w_heap : nat;
  w_faults : list bool;
  w_upload : string → option string;
}.

Definition with_items (f : list (ItemDoc oid) → list (ItemDoc oid)) (w : World) : World :=
  {| w_items := f (w_items w); w_shops := w_shops w; w_cache := w_cache w;
     w_now := w_now w; w_next_oid := w_next_oid w; w_heap := w_heap w;
     w_faults := w_faults w; w_upload := w_upload w |}.

Definition with_shops (f : list (ShopDoc oid) → list (ShopDoc oid)) (w : World) : World :=
  {| w_items := w_items w; w_shops := f (w_shops w); w_cache := w_cache w;
     w_now := w_now w; w_next_oid := w_next_oid w; w_heap := w_heap w;
     w_faults := w_faults w; w_upload := w_upload w |}.

Definition with_cache (f : gmap string CacheEntry → gmap string CacheEntry) (w : World) : World :=
  {| w_items := w_items w; w_shops := w_shops w; w_cache := f (w_cache w);
     w_now := w_now w; w_next_oid := w_next_oid w; w_heap := w_heap w;
     w_faults := w_faults w; w_upload := w_upload w |}.

Definition with_now (t : Z) (w : World) : World :=
  {| w_items := w_items w; w_shops := w_shops w; w_cache := w_cache w;
     w_now := t; w_next_oid := w_next_oid w; w_heap := w_heap w;
     w_faults := w_faults w; w_upload := w_upload w |}.

Definition with_next_oid (n : N) (w : World) : World :=
  {| w_items := w_items w; w_shops := w_shops w; w_cache := w_cache w;
     w_now := w_now w; w_next_oid := n; w_heap := w_heap w;
     w_faults := w_faults w; w_upload := w_upload w |}.

Definition with_heap (h : nat) (w : World) : World :=
  {| w_items := w_items w; w_shops := w_shops w; w_cache := w_cache w;
     w_now := w_now w; w_next_oid := w_next_oid w; w_heap := h;
     w_faults := w_faults w; w_upload := w_upload w |}.

Definition with_faults (fs : list bool) (w : World) : World :=
  {| w_items := w_items w; w_shops := w_shops w; w_cache := w_cache w;
     w_now := w_now w; w_next_oid := w_next_oid w; w_heap := w_heap w;
     w_faults := fs; w_upload := w_upload w |}.

(** ** The monad of a handler body *)

(** What a body comes to: a value, a thrown error, or an execution outside
    the fragment of the patterns. *)
Inductive Outcome (A : Type) :=
| Ret (a : A)
| Throw (e : JsError)
| Stuck.
Arguments Ret {A}.
Arguments Throw {A}.
Arguments Stuck {A}.

Definition M (A : Type) : Type := World → Outcome A * World.

#[global] Instance M_ret : MRet M := λ A a w, (Ret a, w).

#[global] Instance M_bind : MBind M := λ A B f m w,
  match m w with
  | (Ret a, w') => f a w'
  | (Throw e, w') => (Throw e, w')
  | (Stuck, w') => (Stuck, w')
  end.

Definition throw {A} (e : JsError) : M A := λ w, (Throw e, w).
Definition stuck {A} : M A := λ w, (Stuck, w).
Definition world : M World := λ w, (Ret w, w).
Definition update (f : World → World) : M unit := λ w, (Ret (), f w).

(** [try { body } catch (error) { return res.status(500).json(...) }] *)
Definition try_catch (text : string) (m : M Result) (w : World) : Result * World :=
  match m w with
  | (Ret r, w') => (r, w')
  | (Throw e, w') => (Replied {| status := 500; body := BFailure text e |}, w')
  | (Stuck, w') => (OutOfModel, w')
  end.

(** [return res.status(code).json(b)] *)
Definition send (code : nat) (b : Body) : M Result :=
  mret (Replied {| status := code; body := b |}).

Definition message (code : nat) (text : string) : M Result := send code (BMessage text).

(** ** Object ids and the heap *)

Definition is_hex (c : ascii) : bool :=
  let n := nat_of_ascii c in
  is_digit c || ((97 <=? n)%nat && (n <=? 102)%nat)
             || ((65 <=? n)%nat && (n <=? 70)%nat).

(** The cast of a request string to an [ObjectId]: 24 hexadecimal digits. *)
Definition parseObjectId (s : string) : option oid :=
  if bool_decide (String.length s = 24) && forallb is_hex (chars s)
  then Some (toLowerCase s)
  else None.

Definition castObjectId (s : string) : M oid :=
  match parseObjectId s with
  | Some id => mret id
  | None => throw CastError
  end.

Definition hex_digit (n : N) : ascii :=
  ascii_of_N (if (n <? 10)%N then 48 + n else 87 + n).

Fixpoint hex (k : nat) (n : N) (acc : string) : string :=
  match k with
  | O => acc
  | S k' => hex k' (n / 16)%N (String (hex_digit (n mod 16)%N) acc)
  end.

(** [new ObjectId()]: the driver's generator, a counter in the model. *)
Definition new_ObjectId : M oid := λ w,
  (Ret (hex 24 (w_next_oid w) ""), with_next_oid (N.succ (w_next_oid w)) w).

(** A new [ObjectId] object for a value read from the store. *)
Definition alloc (h : oid) : M ObjectId := λ w,
  (Ret {| oref := w_heap w; ohex := h |}, with_heap (S (w_heap w)) w).

Fixpoint alloc_all (hs : list oid) : M (list ObjectId) :=
  match hs with
  | [] => mret []
  | h :: hs' => o ← alloc h; os ← alloc_all hs'; mret (o :: os)
  end.

Definition hydrate_item (it : ItemDoc oid) : M (ItemDoc ObjectId) :=
  id ← alloc (i_id it);
  sh ← alloc (i_shop it);
  mret {| i_id := id; i_name := i_name it; i_category := i_category it;
          i_foodType := i_foodType it; i_price := i_price it;
          i_image := i_image it; i_rating := i_rating it; i_shop := sh;
          i_updatedAt := i_updatedAt it |}.

Definition hydrate_shop (s : ShopDoc oid) : M (ShopDoc ObjectId) :=
  id ← alloc (s_id s);
  ow ← alloc (s_owner s);
  its ← alloc_all (s_items s);
  mret {| s_id := id; s_name := s_name s; s_image := s_image s;
          s_city := s_city s; s_owner := ow; s_items := its |}.

(** The values of a hydrated document: what is written and serialized. *)
Definition item_values (d : ItemDoc ObjectId) : ItemDoc oid :=
  {| i_id := ohex (i_id d); i_name := i_name d; i_category := i_category d;
     i_foodType := i_foodType d; i_price := i_price d; i_image := i_image d;
     i_rating := i_rating d; i_shop := ohex (i_shop d);
     i_updatedAt := i_updatedAt d |}.

Definition shop_values (d : ShopDoc ObjectId) : ShopDoc oid :=
  {| s_id := ohex (s_id d); s_name := s_name d; s_image := s_image d;
     s_city := s_city d; s_owner := ohex (s_owner d);
     s_items := ohex <$> s_items d |}.

(** ** Collaborators *)

(** An awaited call of the persistence store: it rejects when the
    environment says so. *)
Definition served (w : World) : World := with_faults (tail (w_faults w)) w.

Definition await_store : M unit := λ w,
  match head (w_faults w) with
  | Some true => (Throw StoreError, served w)
  | _ => (Ret (), served w)
  end.

(** The next [n] calls of the store are answered. *)
Definition store_ok (n : nat) (w : World) : bool :=
  forallb negb (take n (w_faults w)).

(** Modelled from the spec: [utils/cloudinary.js], the Asset Uploader,
    which "takes a local file path, returns a durable URL or fails". *)
Definition uploadOnCloudinary (path : string) : M string := λ w,
  match w_upload w path with
  | Some url => (Ret url, w)
  | None => (Throw UploadError, w)
  end.

(** [Promise.all([a, b])]: both calls are made; it rejects if one does. *)
Definition promise_all {A B} (a : M A) (b : M B) : M (A * B) := λ w,
  let '(oa, w1) := a w in
  let '(ob, w2) := b w1 in
  match oa, ob with
  | Ret x, Ret y => (Ret (x, y), w2)
  | Throw e, _ => (Throw e, w2)
  | Stuck, _ => (Stuck, w2)
  | Ret _, Throw e => (Throw e, w2)
  | Ret _, Stuck => (Stuck, w2)
  end.

(** ** Lists of documents *)

Fixpoint replace_first {A} (p : A → bool) (x : A) (l : list A) : list A :=
  match l with
  | [] => []
  | y :: l' => if p y then x :: l' else y :: replace_first p x l'
  end.

Fixpoint remove_first {A} (p : A → bool) (l : list A) : list A :=
  match l with
  | [] => []
  | y :: l' => if p y then l' else y :: remove_first p l'
  end.

(** A stable sort: [before x y] tells that [x] may stand before [y]. *)
Fixpoint insert_by {A} (before : A → A → bool) (x : A) (l : list A) : list A :=
  match l with
  | [] => [x]
  | y :: l' => if before x y then x :: l else y :: insert_by before x l'
  end.

Definition sort_by {A} (before : A → A → bool) (l : list A) : list A :=
  foldr (insert_by before) [] l.

(** [.sort({ "rating.average": -1 })] *)
Definition by_rating_desc (a b : ItemView) : bool :=
  num_le (average (v_rating b)) (average (v_rating a)).

(** [sort: { updatedAt: -1 }] *)
Definition by_updatedAt_desc (a b : ItemDoc oid) : bool :=
  (i_updatedAt b <=? i_updatedAt a)%Z.

Definition has_id {I} `{EqDecision I} (id : I) (it : ItemDoc I) : bool :=
  bool_decide (i_id it = id).

Definition shop_has_id (id : oid) (s : ShopDoc oid) : bool :=
  bool_decide (s_id s = id).

(** The cities of the shops are plain texts. *)
Definition plain_cities (shops : list (ShopDoc oid)) : bool :=
  forallb (λ s, plain (s_city s)) shops.

(** A plain field against [{ $regex: ..., $options: "i" }]: an absent field
    does not match. *)
Definition field_matches (atoms : list atom) (f : option string) : bool :=
  match f with
  | Some s => match_from true true atoms s
  | None => false
  end.

(** ** The Item model *)

Module Item.

Definition findById (s : string) : M (option (ItemDoc ObjectId)) :=
  id ← castObjectId s;
  await_store;;
  w ← world;
  match List.find (has_id id) (w_items w) with
  | None => mret None
  | Some it => d ← hydrate_item it; mret (Some d)
  end.

Definition create (name category foodType : option string)
    (price : option num) (image : option string) (shop : ObjectId)
    : M (ItemDoc ObjectId) :=
  id ← new_ObjectId;
  await_store;;
  w ← world;
  let it := {| i_id := id; i_name := name; i_category := category;
               i_foodType := foodType; i_price := price; i_image := image;
               i_rating := no_rating; i_shop := ohex shop;
               i_updatedAt := w_now w |} in
  update (with_items (λ l, app l [it]));;
  hydrate_item it.

(** [findByIdAndUpdate(id, fields, { new: true })]: the fields that are
    [undefined] are left as they are. *)
Definition findByIdAndUpdate (s : string)
    (name category foodType : option string) (price : option num)
    (image : option string) : M (option (ItemDoc ObjectId)) :=
  id ← castObjectId s;
  await_store;;
  w ← world;
  match List.find (has_id id) (w_items w) with
  | None => mret None
  | Some it =>
      let keep {A} (new old : option A) : option A :=
        match new with Some _ => new | None => old end in
      let it' := {| i_id := i_id it;
                    i_name := keep name (i_name it);
                    i_category := keep category (i_category it);
                    i_foodType := keep foodType (i_foodType it);
                    i_price := keep price (i_price it);
                    i_image := keep image (i_image it);
                    i_rating := i_rating it; i_shop := i_shop it;
                    i_updatedAt := w_now w |} in
      update (with_items (replace_first (has_id id) it'));;
      d ← hydrate_item it'; mret (Some d)
  end.

Definition findByIdAndDelete (s : string) : M (option (ItemDoc ObjectId)) :=
  id ← castObjectId s;
  await_store;;
  w ← world;
  match List.find (has_id id) (w_items w) with
  | None => mret None
  | Some it =>
      update (with_items (remove_first (has_id id)));;
      d ← hydrate_item it; mret (Some d)
  end.

(** [item.save()]: one update of the stored entity. *)
Definition save (d : ItemDoc ObjectId) : M unit :=
  await_store;;
  w ← world;
  let id := ohex (i_id d) in
  match List.find (has_id id) (w_items w) with
  | None => throw StoreError
  | Some _ =>
      let it := item_values d in
      let it' := {| i_id := i_id it; i_name := i_name it;
                    i_category := i_category it;
                    i_foodType := i_foodType it; i_price := i_price it;
                    i_image := i_image it; i_rating := i_rating it;
                    i_shop := i_shop it; i_updatedAt := w_now w |} in
      update (with_items (replace_first (has_id id) it'))
  end.

(** [Item.find(filter).select(itemProjection).lean()] *)
Definition find (filter : ItemDoc oid → bool) : M (list ItemView) :=
  await_store;;
  w ← world;
  mret (itemProjection <$> List.filter filter (w_items w)).

(** [Item.find(filter).select(itemProjection).lean().limit(n)
    .sort({ "rating.average": -1 })]: sorted, then limited.  A filter that
    holds a pattern test is [defined] on the items whose tested fields are
    plain texts; a query whose filter is not defined on a stored item is
    outside the model. *)
Definition find_limit_sort (defined filter : ItemDoc oid → bool) (n : nat)
    : M (list ItemView) :=
  await_store;;
  w ← world;
  if forallb defined (w_items w) then
    mret (take n (sort_by by_rating_desc
                    (itemProjection <$> List.filter filter (w_items w))))
  else stuck.

End Item.

(** ** The Shop model *)

Module Shop.

(** [Shop.findOne({ owner })] *)
Definition findOne (owner : string) : M (option (ShopDoc ObjectId)) :=
  id ← castObjectId owner;
  await_store;;
  w ← world;
  match List.find (λ s, bool_decide (s_owner s = id)) (w_shops w) with
  | None => mret None
  | Some s => d ← hydrate_shop s; mret (Some d)
  end.

(** [Shop.findById(id).select(shopProjection).lean()] *)
Definition findById (s : string) : M (option ShopView) :=
  id ← castObjectId s;
  await_store;;
  w ← world;
  mret (shopProjection <$> List.find (shop_has_id id) (w_shops w)).

(** [Shop.find({ city: { $regex: new RegExp(`^${city}$`, "i") } })
    .select(...).lean()]: the pattern is tested on the city of every shop,
    which the model does on plain texts. *)
Definition find_city {A} (city : string) (select : ShopDoc oid → A)
    : M (list A) :=
  match compile ("^" +:+ city +:+ "$") with
  | None => stuck
  | Some atoms =>
      await_store;;
      w ← world;
      if plain_cities (w_shops w) then
        mret (select <$>
                List.filter (λ s, match_from true true atoms (s_city s))
                            (w_shops w))
      else stuck
  end.

Definition save (d : ShopDoc ObjectId) : M unit :=
  await_store;;
  w ← world;
  let id := ohex (s_id d) in
  match List.find (shop_has_id id) (w_shops w) with
  | None => throw StoreError
  | Some _ => update (with_shops (replace_first (shop_has_id id) (shop_values d)))
  end.

(** [populate({ path: "items", options: { sort: { updatedAt: -1 } } })]:
    the items of the list that exist, latest update first. *)
Definition populate_items (d : ShopDoc ObjectId) : M (list (ItemDoc oid)) :=
  await_store;;
  w ← world;
  mret (sort_by by_updatedAt_desc
          (List.filter (λ it, bool_decide (i_id it ∈ ohex <$> s_items d))
                       (w_items w))).

(** [populate("owner")]: the users are not part of this model. *)
Definition populate_owner (d : ShopDoc ObjectId) : M unit := await_store.

Definition populated (d : ShopDoc ObjectId) (owner : bool)
    (items : list (ItemDoc oid)) : PopulatedShop :=
  {| ps_id := ohex (s_id d); ps_name := s_name d; ps_image := s_image d;
     ps_city := s_city d; ps_owner := ohex (s_owner d);
     ps_owner_populated := owner; ps_items := items |}.

End Shop.

(** ** The cache: [new NodeCache({ stdTTL: 300, checkperiod: 60 })] *)

Module cache.

Definition stdTTL : Z := 300.
Definition checkperiod : Z := 60.

(** An entry is served until its time: it has expired once
    [expires < Date.now()]. *)
Definition live (now : Z) (e : CacheEntry) : bool :=
  negb (ce_expires e <? now)%Z.

(** [cache.get(key)]: an expired entry is deleted and missed. *)
Definition get (key : string) : M (option Payload) := λ w,
  match w_cache w !! key with
  | None => (Ret None, w)
  | Some e =>
      if live (w_now w) e then (Ret (Some (ce_value e)), w)
      else (Ret None, with_cache (delete key) w)
  end.

(** [cache.set(key, value)]: kept for [stdTTL] seconds. *)
Definition set (key : string) (v : Payload) : M unit := λ w,
  (Ret (), with_cache (insert key {| ce_value := v;
                                     ce_expires := w_now w + stdTTL * 1000 |}) w).

(** The periodic check, every [checkperiod] seconds. *)
Definition sweep (w : World) : World :=
  with_cache (filter (λ kv, live (w_now w) kv.2 = true)) w.

End cache.

(** ** The handlers *)

Definition Handler : Type := Request → World → Result * World.

(** [!s] for a string that may be absent. *)
Definition absent (s : option string) : bool :=
  match s with
  | None => true
  | Some s => bool_decide (s = "")
  end.

(** [!q] for a value of [req.query]. *)
Definition query_absent (q : QueryParam) : bool :=
  match q with
  | QAbsent => true
  | QString s => bool_decide (s = "")
  | QNested => false
  end.

(** [if (req.file) image = await uploadOnCloudinary(req.file.path)] *)
Definition upload_file (req : Request) : M (option string) :=
  match file req with
  | Some path => url ← uploadOnCloudinary path; mret (Some url)
  | None => mret None
  end.

(** [shop.items.push(id)] *)
Definition push_item (shop : ShopDoc ObjectId) (id : ObjectId) : ShopDoc ObjectId :=
  {| s_id := s_id shop; s_name := s_name shop; s_image := s_image shop;
     s_city := s_city shop; s_owner := s_owner shop;
     s_items := app (s_items shop) [id] |}.

(** [shop.items = ids] *)
Definition assign_items (shop : ShopDoc ObjectId) (ids : list ObjectId) : ShopDoc ObjectId :=
  {| s_id := s_id shop; s_name := s_name shop; s_image := s_image shop;
     s_city := s_city shop; s_owner := s_owner shop; s_items := ids |}.

(** [item.rating.count = c; item.rating.average = a] *)
Definition assign_rating (item : ItemDoc ObjectId) (a c : num) : ItemDoc ObjectId :=
  {| i_id := i_id item; i_name := i_name item; i_category := i_category item;
     i_foodType := i_foodType item; i_price := i_price item;
     i_image := i_image item;
     i_rating := {| average := a; count := c |};
     i_shop := i_shop item; i_updatedAt := i_updatedAt item |}.

Definition addItem : Handler := λ req,
  try_catch "add item error " (
    image ← upload_file req;
    shop ← Shop.findOne (userId req);
    match shop with
    | None => message 400 "shop not found"
    | Some shop =>
        item ← Item.create (body_name req) (body_category req)
                 (body_foodType req) (body_price req) image (s_id shop);
        let shop := push_item shop (i_id item) in
        Shop.save shop;;
        Shop.populate_owner shop;;
        items ← Shop.populate_items shop;
        send 201 (BShop (Some (Shop.populated shop true items)))
    end).

Definition editItem : Handler := λ req,
  try_catch "edit item error " (
    let itemId := params_itemId req in
    image ← upload_file req;
    item ← Item.findByIdAndUpdate itemId (body_name req) (body_category req)
             (body_foodType req) (body_price req) image;
    match item with
    | None => message 400 "item not found"
    | Some _ =>
        shop ← Shop.findOne (userId req);
        match shop with
        | None => send 200 (BShop None)
        | Some shop =>
            items ← Shop.populate_items shop;
            send 200 (BShop (Some (Shop.populated shop false items)))
        end
    end).

Definition getItemById : Handler := λ req,
  try_catch "get item error " (
    let itemId := params_itemId req in
    item ← Item.findById itemId;
    match item with
    | None => message 400 "item not found"
    | Some item => send 200 (BItem (item_values item))
    end).

Definition deleteItem : Handler := λ req,
  try_catch "delete item error " (
    let itemId := params_itemId req in
    item ← Item.findByIdAndDelete itemId;
    match item with
    | None => message 400 "item not found"
    | Some item =>
        shop ← Shop.findOne (userId req);
        match shop with
        | None => throw TypeError
        | Some shop =>
            let shop :=
              assign_items shop
                (List.filter (λ i, strict_ne i (i_id item)) (s_items shop)) in
            Shop.save shop;;
            items ← Shop.populate_items shop;
            send 200 (BShop (Some (Shop.populated shop false items)))
        end
    end).

(** [Object.fromEntries]: a later entry of a key replaces an earlier one. *)
Definition fromEntries {V} (l : list (string * V)) : gmap string V :=
  foldl (λ m kv, <[kv.1 := kv.2]> m) ∅ l.

Definition city_cacheKey (city : string) : string :=
  "items_city_" +:+ toLowerCase city.

Definition getItemByCity : Handler := λ req,
  try_catch "get item by city error " (
    if absent (params_city req) then message 400 "city is required" else
    let city := default "" (params_city req) in
    if negb (ascii_only city) then stuck else
    let cacheKey := city_cacheKey city in
    cached ← cache.get cacheKey;
    match cached with
    | Some p => send 200 (BPayload p)
    | None =>
        shops ← Shop.find_city city select_id_name_image;
        if bool_decide (length shops = 0) then
          message 404 "No shops found in this city"
        else
          let shopIds := sb_id <$> shops in
          items ← Item.find_limit_sort (λ _, true)
                    (λ it, bool_decide (i_shop it ∈ shopIds)) 50;
          let shopMap :=
            fromEntries ((λ s, (sb_id s, {| si_name := sb_name s;
                                             si_image := sb_image s |}))
                           <$> shops) in
          let itemsWithShop :=
            (λ it, {| ws_item := it; shopInfo := shopMap !! v_shop it |})
              <$> items in
          cache.set cacheKey (PCity itemsWithShop);;
          send 200 (BPayload (PCity itemsWithShop))
    end).

Definition shop_cacheKey (shopId : string) : string :=
  "shop_items_" +:+ shopId.

Definition getItemsByShop : Handler := λ req,
  try_catch "get item by shop error " (
    let shopId := params_shopId req in
    let cacheKey := shop_cacheKey shopId in
    cached ← cache.get cacheKey;
    match cached with
    | Some p => send 200 (BPayload p)
    | None =>
        '(shop, items) ← promise_all
            (Shop.findById shopId)
            (id ← castObjectId shopId;
             Item.find (λ it, bool_decide (i_shop it = id)));
        match shop with
        | None => message 404 "shop not found"
        | Some shop =>
            let response := PShop shop items in
            cache.set cacheKey response;;
            send 200 (BPayload response)
        end
    end).

Definition search_cacheKey (city query : string) : string :=
  "search_" +:+ toLowerCase city +:+ "_" +:+ toLowerCase query.

(** The filter of the search: [{ shop: { $in: shopIds }, $or: [{ name:
    { $regex: query, $options: "i" } }, { category: ... }] }] *)
Definition search_filter (shopIds : list oid) (atoms : list atom)
    (it : ItemDoc oid) : bool :=
  bool_decide (i_shop it ∈ shopIds) &&
  (field_matches atoms (i_name it) || field_matches atoms (i_category it)).

(** The patterns of the search are tested on the name and the category of
    the items of the shops, which are to be plain texts. *)
Definition search_defined (shopIds : list oid) (it : ItemDoc oid) : bool :=
  negb (bool_decide (i_shop it ∈ shopIds)) ||
  (plain_field (i_name it) && plain_field (i_category it)).

Definition searchItems : Handler := λ req,
  try_catch "search item  error " (
    if query_absent (query_query req) || query_absent (query_city req)
    then mret NoReply
    else
      match query_city req, query_query req with
      | QString city, QString query =>
          if negb (ascii_only city && ascii_only query) then stuck else
          let cacheKey := search_cacheKey city query in
          cached ← cache.get cacheKey;
          match cached with
          | Some p => send 200 (BPayload p)
          | None =>
              shops ← Shop.find_city city s_id;
              if bool_decide (length shops = 0) then
                message 404 "shops not found"
              else
                let shopIds := shops in
                match compile query with
                | None => stuck
                | Some atoms =>
                    items ← Item.find_limit_sort
                              (search_defined shopIds)
                              (search_filter shopIds atoms) 25;
                    cache.set cacheKey (PSearch items);;
                    send 200 (BPayload (PSearch items))
                end
          end
      | _, _ => throw TypeError
      end).

(** [itemId] and [rating] are read from the body first: the two cases of
    the [match] are those of the first test, [!itemId || !rating]. *)
Definition rating : Handler := λ req,
  try_catch "rating error " (
    match body_itemId req, body_rating req with
    | Some itemId, Some rating =>
        if bool_decide (itemId = "") || num_falsy rating then
          message 400 "itemId and rating is required"
        else if (rating <? 1)%float || (5 <? rating)%float then
          message 400 "rating must be between 1 to 5"
        else
          item ← Item.findById itemId;
          match item with
          | None => message 400 "item not found"
          | Some item =>
              let newCount := (count (i_rating item) + 1)%float in
              let newAverage :=
                ((average (i_rating item) * count (i_rating item) + rating)
                 / newCount)%float in
              let item := assign_rating item newAverage newCount in
              Item.save item;;
              send 200 (BRating (i_rating item))
          end
    | _, _ => message 400 "itemId and rating is required"
    end).

Inductive Operation :=
| AddItem | EditItem | GetItemById | DeleteItem
| GetItemByCity | GetItemsByShop | SearchItems | SubmitRating.

Definition handle (op : Operation) : Handler :=
  match op with
  | AddItem => addItem
  | EditItem => editItem
  | GetItemById => getItemById
  | DeleteItem => deleteItem
  | GetItemByCity => getItemByCity
  | GetItemsByShop => getItemsByShop
  | SearchItems => searchItems
  | SubmitRating => rating
  end.

Definition is_mutation (op : Operation) : bool :=
  match op with
  | AddItem | EditItem | DeleteItem | SubmitRating => true
  | _ => false
  end.

(** ** Hydrated documents in closed form *)

(** The document that [hydrate_item] builds on a heap whose next free
    identity is [h]. *)
Definition hydrated_item (h : nat) (it : ItemDoc oid) : ItemDoc ObjectId :=
  {| i_id := {| oref := h; ohex := i_id it |};
     i_name := i_name it; i_category := i_category it;
     i_foodType := i_foodType it; i_price := i_price it;
     i_image := i_image it; i_rating := i_rating it;
     i_shop := {| oref := S h; ohex := i_shop it |};
     i_updatedAt := i_updatedAt it |}.

(** The objects that [alloc_all] builds from the identity [h] on. *)
Fixpoint allocated (h : nat) (hs : list oid) : list ObjectId :=
  match hs with
  | [] => []
  | x :: hs' => {| oref := h; ohex := x |} :: allocated (S h) hs'
  end.

Definition hydrated_shop (h : nat) (s : ShopDoc oid) : ShopDoc ObjectId :=
  {| s_id := {| oref := h; ohex := s_id s |};
     s_name := s_name s; s_image := s_image s; s_city := s_city s;
     s_owner := {| oref := S h; ohex := s_owner s |};
     s_items := allocated (S (S h)) (s_items s) |}.

(** ** Requests and worlds of the statements *)

Definition rating_request (itemId : string) (r : num) : Request :=
  {| userId := ""; file := None; body_name := None; body_category := None;
     body_foodType := None; body_price := None;
     body_itemId := Some itemId; body_rating := Some r;
     params_itemId := ""; params_shopId := ""; params_city := None;
     query_query := QAbsent; query_city := QAbsent |}.

Definition item_request (user itemId : string) : Request :=
  {| userId := user; file := None; body_name := None; body_category := None;
     body_foodType := None; body_price := None;
     body_itemId := None; body_rating := None;
     params_itemId := itemId; params_shopId := ""; params_city := None;
     query_query := QAbsent; query_city := QAbsent |}.

Definition city_request (city : string) : Request :=
  {| userId := ""; file := None; body_name := None; body_category := None;
     body_foodType := None; body_price := None;
     body_itemId := None; body_rating := None;
     params_itemId := ""; params_shopId := ""; params_city := Some city;
     query_query := QAbsent; query_city := QAbsent |}.

Definition search_request (query city : QueryParam) : Request :=
  {| userId := ""; file := None; body_name := None; body_category := None;
     body_foodType := None; body_price := None;
     body_itemId := None; body_rating := None;
     params_itemId := ""; params_shopId := ""; params_city := None;
     query_query := query; query_city := city |}.

Definition upload_request (user path : string) : Request :=
  {| userId := user; file := Some path; body_name := Some "Fries";
     body_category := Some "Snacks"; body_foodType := Some "veg";
     body_price := Some 40%float;
     body_itemId := None; body_rating := None;
     params_itemId := ""; params_shopId := ""; params_city := None;
     query_query := QAbsent; query_city := QAbsent |}.

(** The requests of a sequence of ratings of one item, one after the
    other. *)
Fixpoint submit (itemId : string) (rs : list num) (w : World) : list Result * World :=
  match rs with
  | [] => ([], w)
  | r :: rs' =>
      let '(res, w1) := rating (rating_request itemId r) w in
      let '(l, w2) := submit itemId rs' w1 in
      (res :: l, w2)
  end.

Definition pizza_id : oid := "650000000000000000000a01".
Definition burger_id : oid := "650000000000000000000a02".
Definition fries_id : oid := "650000000000000000000a03".
Definition shop_id : oid := "650000000000000000000b01".
Definition owner_id : oid := "650000000000000000000c01".
Definition guest_id : oid := "650000000000000000000c02".

Definition menu_item (id : oid) (name category : string) (r : Rating) : ItemDoc oid :=
  {| i_id := id; i_name := Some name; i_category := Some category;
     i_foodType := Some "veg"; i_price := Some 100%float; i_image := None;
     i_rating := r; i_shop := shop_id; i_updatedAt := 0 |}.

(** One shop in Pune with three items, an empty cache, a store that
    answers every call and an uploader that fails. *)
Definition pune_world : World :=
  {| w_items :=
       [ menu_item pizza_id "Pizza" "Snacks" {| average := 3%float; count := 2%float |};
         menu_item burger_id "Veg Burger" "Burgers" {| average := 4.5%float; count := 2%float |};
         menu_item fries_id "Fries" "Snacks" no_rating ];
     w_shops :=
       [ {| s_id := shop_id; s_name := "Vingo Kitchen"; s_image := "kitchen.png";
            s_city := "Pune"; s_owner := owner_id;
            s_items := [pizza_id; burger_id; fries_id] |} ];
     w_cache := ∅; w_now := 0; w_next_oid := 0; w_heap := 0;
     w_faults := []; w_upload := λ _, None |}.

(** ** The claims as predicates *)

(** The item as one rating more leaves it in the store. *)
Definition rated (it : ItemDoc oid) (r : Rating) (now : Z) : ItemDoc oid :=
  {| i_id := i_id it; i_name := i_name it; i_category := i_category it;
     i_foodType := i_foodType it; i_price := i_price it;
     i_image := i_image it; i_rating := r; i_shop := i_shop it;
     i_updatedAt := now |}.

(** Sorted by descending [rating.average], as a test of the neighbours. *)
Fixpoint descending (l : list ItemView) : bool :=
  match l with
  | a :: (b :: _) as l' => by_rating_desc a b && descending l'
  | _ => true
  end.

(** No item stands before an item of a greater [rating.average]. *)
Definition sorted_by_rating (l : list ItemView) : Prop :=
  ∀ i j a b, (i < j)%nat → l !! i = Some a → l !! j = Some b →
    num_le (average (v_rating b)) (average (v_rating a)) = true.


Definition field_contains (query : string) (f : option string) : bool :=
  match f with
  | Some s => contains_ci query s
  | None => false
  end.

(** The name or the category of the item contains the query. *)
Definition names_query (query : string) (it : ItemView) : bool :=
  field_contains query (v_name it) || field_contains query (v_category it).











(** Modelled on the glossary of the specification, the weighted running
    average: "average' = (average*count + newValue)/(count+1)". *)
Definition rate (old : Rating) (r : num) : Rating :=
  {| average := ((average old * count old + r) / (count old + 1))%float;
     count := (count old + 1)%float |}.

(** What a reader of the cache sees of the world. *)
Definition cache_state (w : World) : gmap string CacheEntry * Z :=
  (w_cache w, w_now w).



(** ** Properties of handler bodies *)

(** The body leaves a field of the world as it is. *)
Definition keeps {T A} (field : World → T) (m : M A) : Prop :=
  ∀ w, field (m w).2 = field w.

(** Whatever the body returns satisfies [Q]. *)
Definition answers (Q : Result → Prop) (m : M Result) : Prop :=
  ∀ w, match (m w).1 with Ret r => Q r | _ => True end.



(** The body adds no entry to the cache. *)
Definition no_new {A} (m : M A) : Prop :=
  ∀ w k e, w_cache (m w).2 !! k = Some e → w_cache w !! k = Some e.

(** ** Runs of the process

    The handlers share the cache with nothing else: the other steps of a
    run (the clock, the rest of the application) leave it as it is, but
    for the periodic check.  A run records what was answered. *)
Inductive run (w0 : World) : list Result → World → Prop :=
| run_start : run w0 [] w0
| run_request log w op req :
    run w0 log w → run w0 ((handle op req w).1 :: log) (handle op req w).2
| run_other log w w' :
    run w0 log w → w_cache w' = w_cache w → run w0 log w'
| run_sweep log w :
    run w0 log w → run w0 log (cache.sweep w).

(** The answer that served the payload [p]. *)
Definition success (p : Payload) : Result :=
  Replied {| status := 200; body := BPayload p |}.

(** An entry that the body adds to the cache is the payload that it
    answers with status 200. *)
Definition caches_success (m : M Result) : Prop :=
  ∀ w k e, w_cache (m w).2 !! k = Some e →
    w_cache w !! k = Some e ∨ (m w).1 = Ret (success (ce_value e)).

(** The cache key of a cached read, when the request has one in the
    model. *)
Definition cacheKey_of (op : Operation) (req : Request) : option string :=
  match op with
  | GetItemByCity =>
      if absent (params_city req) then None
      else if negb (ascii_only (default "" (params_city req))) then None
      else Some (city_cacheKey (default "" (params_city req)))
  | GetItemsByShop => Some (shop_cacheKey (params_shopId req))
  | SearchItems =>
      match query_city req, query_query req with
      | QString city, QString query =>
          if query_absent (query_query req) || query_absent (query_city req)
          then None
          else if negb (ascii_only city && ascii_only query) then None
          else Some (search_cacheKey city query)
      | _, _ => None
      end
  | _ => None
  end.

(** ** The store and what a handler writes to it *)

(** The two collections of the store. *)
Definition store_state (w : World) : list (ItemDoc oid) * list (ShopDoc oid) :=
  (w_items w, w_shops w).

(** What an edit has no field for: the id, the rating and the shop of an
    item. *)
Definition identity_of (it : ItemDoc oid) : oid * Rating * oid :=
  (i_id it, i_rating it, i_shop it).

Definition listing (w : World) : list (oid * Rating * oid) * list (ShopDoc oid) :=
  (identity_of <$> w_items w, w_shops w).

(** An item but for its rating and the time of its last write. *)
Definition unrated (it : ItemDoc oid) : ItemDoc oid := rated it no_rating 0.

Definition details (w : World) : list (ItemDoc oid) * list (ShopDoc oid) :=
  (unrated <$> w_items w, w_shops w).

(** The item that [findByIdAndUpdate] writes for a request: a field that
    the request does not give ([undefined]) is left as it was. *)
Definition edited (it : ItemDoc oid) (req : Request) (image : option string)
    (now : Z) : ItemDoc oid :=
  let keep {A} (new old : option A) : option A :=
    match new with Some _ => new | None => old end in
  {| i_id := i_id it;
     i_name := keep (body_name req) (i_name it);
     i_category := keep (body_category req) (i_category it);
     i_foodType := keep (body_foodType req) (i_foodType it);
     i_price := keep (body_price req) (i_price it);
     i_image := keep image (i_image it);
     i_rating := i_rating it; i_shop := i_shop it;
     i_updatedAt := now |}.

(** The item that [Item.create] writes for a request. *)
Definition created (id : oid) (req : Request) (image : option string)
    (shop : oid) (now : Z) : ItemDoc oid :=
  {| i_id := id; i_name := body_name req; i_category := body_category req;
     i_foodType := body_foodType req; i_price := body_price req;
     i_image := image; i_rating := no_rating; i_shop := shop;
     i_updatedAt := now |}.

(** The shop with one id more at the end of its list. *)
Definition listed (sh : ShopDoc oid) (id : oid) : ShopDoc oid :=
  {| s_id := s_id sh; s_name := s_name sh; s_image := s_image sh;
     s_city := s_city sh; s_owner := s_owner sh;
     s_items := app (s_items sh) [id] |}.

(** A shop but for its list of items. *)
Definition shop_card (s : ShopDoc oid) : oid * string * string * string * oid :=
  (s_id s, s_name s, s_image s, s_city s, s_owner s).

Definition shop_cards (w : World) : list (oid * string * string * string * oid) :=
  shop_card <$> w_shops w.

(** ** The shops of a city *)

(** The shops that the pattern [^city$] with the flag [i] selects when the
    city is made of literal ASCII characters and the cities of the shops
    are plain texts. *)
Definition city_shops (city : string) (w : World) : list (ShopDoc oid) :=
  List.filter (λ s, equal_ci (s_city s) city) (w_shops w).

(** The names and the categories of the items of the shops of a city are
    plain texts. *)
Definition plain_menu (city : string) (w : World) : bool :=
  forallb (search_defined (s_id <$> city_shops city w)) (w_items w).

(** The items of the shops of a city. *)
Definition city_match (city : string) (w : World) (it : ItemDoc oid) : bool :=
  bool_decide (i_shop it ∈ s_id <$> city_shops city w).

(** The items of the shops of a city whose name or category holds the
    query. *)
Definition search_match (query city : string) (w : World) (it : ItemDoc oid) : bool :=
  bool_decide (i_shop it ∈ s_id <$> city_shops city w) &&
  names_query query (itemProjection it).

(** ** Keys and payloads *)

(** The payload is of the kind that the handlers set under a key with
    this prefix. *)
Definition kind_ok (key : string) (p : Payload) : bool :=
  match p with
  | PCity _ => starts "items_city_" key
  | PShop _ _ => starts "shop_items_" key
  | PSearch _ => starts "search_" key
  end.

Definition well_kinded (w : World) : Prop :=
  ∀ k e, w_cache w !! k = Some e → kind_ok k (ce_value e) = true.

(** An entry that the body adds to the cache is of the kind of its key. *)
Definition caches_kind (m : M Result) : Prop :=
  ∀ w k e, w_cache (m w).2 !! k = Some e →
    w_cache w !! k = Some e ∨ kind_ok k (ce_value e) = true.

(** The body of a success of each handler. *)
Definition shaped (op : Operation) (b : Body) : Prop :=
  match op, b with
  | AddItem, BShop (Some _) => True
  | EditItem, BShop _ => True
  | DeleteItem, BShop (Some _) => True
  | GetItemById, BItem _ => True
  | GetItemByCity, BPayload (PCity _) => True
  | GetItemsByShop, BPayload (PShop _ _) => True
  | SearchItems, BPayload (PSearch _) => True
  | SubmitRating, BRating _ => True
  | _, _ => False
  end.

Definition shape_of (op : Operation) (r : Result) : Prop :=
  match r with
  | Replied r => status r = 200 ∨ status r = 201 → shaped op (body r)
  | _ => True
  end.

(** ** More requests and worlds of the statements *)

(** A request for the items of a shop. *)
Definition shop_request (shopId : string) : Request :=
  {| userId := ""; file := None; body_name := None; body_category := None;
     body_foodType := None; body_price := None;
     body_itemId := None; body_rating := None;
     params_itemId := ""; params_shopId := shopId; params_city := None;
     query_query := QAbsent; query_city := QAbsent |}.

(** A request with the fields of an item and no file. *)
Definition menu_request (user itemId name category : string) (price : num) : Request :=
  {| userId := user; file := None; body_name := Some name;
     body_category := Some category; body_foodType := Some "veg";
     body_price := Some price;
     body_itemId := None; body_rating := None;
     params_itemId := itemId; params_shopId := ""; params_city := None;
     query_query := QAbsent; query_city := QAbsent |}.

Definition momo_id : oid := "000000000000000000000000".
Definition absent_id : oid := "650000000000000000000a09".

(** [pune_world] with a store that rejects its third call. *)
Definition failing_world : World := with_faults [false; false; true] pune_world.

(** The shop of [pune_world]. *)
Definition kitchen : ShopDoc oid :=
  {| s_id := shop_id; s_name := "Vingo Kitchen"; s_image := "kitchen.png";
     s_city := "Pune"; s_owner := owner_id;
     s_items := [pizza_id; burger_id; fries_id] |}.

(** What a read of the city of [pune_world] answers: the three items by
    descending rating, each with the name and the image of the shop. *)
Definition pune_menu : Payload :=
  let card := Some {| si_name := "Vingo Kitchen"; si_image := "kitchen.png" |} in
  PCity
    [ {| ws_item := itemProjection
                      (menu_item burger_id "Veg Burger" "Burgers"
                         {| average := 4.5%float; count := 2%float |});
         shopInfo := card |};
      {| ws_item := itemProjection
                      (menu_item pizza_id "Pizza" "Snacks"
                         {| average := 3%float; count := 2%float |});
         shopInfo := card |};
      {| ws_item := itemProjection (menu_item fries_id "Fries" "Snacks" no_rating);
         shopInfo := card |} ].

(** The world after a sequence of requests, one after the other. *)
Definition after (reqs : list (Operation * Request)) (w : World) : World :=
  foldl (λ w r, (handle r.1 r.2 w).2) w reqs.

(** [pune_world] with a store that rejects its first call. *)
Definition down_world : World := with_faults [true] pune_world.

(** * Properties *)

(** ** The order of the numbers *)

Lemma SFcompare_swap x y c :
  SFcompare x y = Some c → SFcompare y x = Some (CompOpp c).
Proof.
  destruct x as [s1|s1| |s1 m1 e1], y as [s2|s2| |s2 m2 e2]; simpl;
    try congruence;
    try (destruct s1; try destruct s2; intros E; simplify_eq; reflexivity).
  destruct s1, s2; intros E; simplify_eq; try reflexivity.
  - rewrite (Z.compare_antisym e1 e2).
    destruct (e1 ?= e2)%Z; simpl; try reflexivity.
    rewrite (Pos.compare_cont_antisym m1 m2 Eq). reflexivity.
  - rewrite (Z.compare_antisym e1 e2).
    destruct (e1 ?= e2)%Z; simpl; try reflexivity.
    rewrite (Pos.compare_cont_antisym m1 m2 Eq). reflexivity.
Qed.

Lemma SFcompare_None x y :
  SFcompare x y = None → x = S754_nan ∨ y = S754_nan.
Proof.
  destruct x as [s1|s1| |s1 m1 e1], y as [s2|s2| |s2 m2 e2]; simpl; auto;
    try congruence.
  all: try (destruct s1; try destruct s2; congruence).
Qed.

Lemma SFeqb_refl x :
  SFeqb x x = negb (match x with S754_nan => true | _ => false end).
Proof.
  unfold SFeqb. destruct x as [s|s| |s m e]; simpl; try reflexivity.
  - destruct s; reflexivity.
  - destruct s; rewrite Z.compare_refl; fold (Pos.compare m m);
      rewrite Pos.compare_refl; reflexivity.
Qed.

Lemma is_nan_SF a :
  PrimFloat.is_nan a = match Prim2SF a with S754_nan => true | _ => false end.
Proof.
  unfold PrimFloat.is_nan. rewrite FloatAxioms.eqb_spec, SFeqb_refl.
  apply negb_involutive.
Qed.

(** The order of the sort is total. *)
Lemma num_le_total a b : num_le a b = false → num_le b a = true.
Proof.
  unfold num_le. rewrite !is_nan_SF, !FloatAxioms.leb_spec. unfold SFleb.
  destruct (SFcompare (Prim2SF a) (Prim2SF b)) as [c|] eqn:E.
  - rewrite (SFcompare_swap _ _ _ E).
    destruct c; simpl; intros H;
      try (apply orb_false_iff in H as [_ H]; discriminate).
    apply orb_true_r.
  - apply SFcompare_None in E as [E|E]; rewrite E; simpl; intros;
      try discriminate; auto.
Qed.

Lemma leb_not_ltb a b : (a <=? b)%float = true → (b <? a)%float = false.
Proof.
  rewrite FloatAxioms.leb_spec, FloatAxioms.ltb_spec. unfold SFleb, SFltb.
  destruct (SFcompare (Prim2SF a) (Prim2SF b)) as [c|] eqn:E; try discriminate.
  rewrite (SFcompare_swap _ _ _ E). destruct c; simpl; congruence.
Qed.

Lemma SFleb_trans x y z :
  SFleb x y = true → SFleb y z = true → SFleb x z = true.
Proof.
  unfold SFleb, SFcompare.
  destruct x as [s1|s1| |s1 m1 e1], y as [s2|s2| |s2 m2 e2],
           z as [s3|s3| |s3 m3 e3];
    try discriminate; try reflexivity;
    try (destruct s1); try (destruct s2); try (destruct s3);
    try discriminate; try reflexivity;
    change (Pos.compare_cont Eq) with Pos.compare;
    destruct (Z.compare_spec e1 e2), (Z.compare_spec e2 e3),
             (Z.compare_spec e1 e3);
    try discriminate; try reflexivity; try lia;
    destruct (Pos.compare_spec m1 m2), (Pos.compare_spec m2 m3),
             (Pos.compare_spec m1 m3);
    simpl; try discriminate; try reflexivity; try lia.
Qed.

Lemma SFleb_nan_r x : SFleb x S754_nan = false.
Proof. destruct x; reflexivity. Qed.

(** The order of the sort is transitive. *)
Lemma num_le_trans a b c :
  num_le a b = true → num_le b c = true → num_le a c = true.
Proof.
  unfold num_le. rewrite !is_nan_SF, !FloatAxioms.leb_spec.
  generalize (Prim2SF a) (Prim2SF b) (Prim2SF c). intros A B C H1 H2.
  destruct A as [sa|sa| |sa ma ea]; try reflexivity; cbn [orb] in *.
  all: destruct B as [sb|sb| |sb mb eb];
    try (rewrite SFleb_nan_r in H1; discriminate);
    simpl orb in H2; exact (SFleb_trans _ _ _ H1 H2).
Qed.

(** A number from 1 on is neither zero nor NaN: [!rating] is false. *)
Lemma ge_one_truthy r : (1 <=? r)%float = true → num_falsy r = false.
Proof.
  unfold num_falsy.
  rewrite is_nan_SF, FloatAxioms.leb_spec, FloatAxioms.eqb_spec.
  unfold SFleb, SFeqb.
  change (Prim2SF 1) with (S754_finite false 4503599627370496 (-52)).
  change (Prim2SF 0) with (S754_zero false).
  destruct (Prim2SF r) as [s|s| |s m e]; simpl; try discriminate.
  - destruct s; simpl; [discriminate|reflexivity].
  - destruct s; simpl; [discriminate|reflexivity].
Qed.

(** ** Strings and patterns *)


Lemma append_empty s : s +:+ "" = s.
Proof.
  induction s as [|c s IH]; [reflexivity|].
  change (String c s +:+ "") with (String c (s +:+ "")). rewrite IH.
  reflexivity.
Qed.

Lemma literal_cons c s :
  literal (String c s) = is_ascii c && negb (is_meta c) && literal s.
Proof. reflexivity. Qed.

Lemma literal_ascii s : literal s = true → ascii_only s = true.
Proof.
  induction s as [|c s IH]; [reflexivity|]. rewrite literal_cons.
  intros H. apply andb_true_iff in H as [H Hs].
  apply andb_true_iff in H as [Hc _].
  cbn [ascii_only chars forallb]. rewrite Hc. exact (IH Hs).
Qed.

Lemma not_meta_plain c :
  is_meta c = false →
  c ≠ "\"%char ∧ c ≠ "."%char ∧ c ≠ "^"%char ∧ c ≠ "$"%char.
Proof.
  unfold is_meta. intros H. apply bool_decide_eq_false in H.
  repeat split; intros ->; apply H; vm_compute; set_solver.
Qed.

Lemma compile_cons c rest :
  compile (String c rest) =
    if bool_decide (c = "\"%char) then
      match rest with
      | EmptyString => None
      | String e rest' => a ← escape e; (a ::.) <$> compile rest'
      end
    else if bool_decide (c = "."%char) then (AAny ::.) <$> compile rest
    else if bool_decide (c = "^"%char) then (ABegin ::.) <$> compile rest
    else if bool_decide (c = "$"%char) then (AEnd ::.) <$> compile rest
    else if is_meta c || negb (is_ascii c) then None
    else (ALit c ::.) <$> compile rest.
Proof. reflexivity. Qed.

(** A string of literal characters compiles to these characters. *)
Lemma compile_literal_app s t :
  literal s = true →
  compile (s +:+ t) = (app (ALit <$> chars s)) <$> compile t.
Proof.
  induction s as [|c s IH]; intros H.
  - change ("" +:+ t) with t. destruct (compile t); reflexivity.
  - rewrite literal_cons in H. apply andb_true_iff in H as [Hc Hs].
    apply andb_true_iff in Hc as [Ha Hc].
    apply negb_true_iff in Hc.
    destruct (not_meta_plain c Hc) as (H1 & H2 & H3 & H4).
    change (String c s +:+ t) with (String c (s +:+ t)).
    rewrite compile_cons.
    rewrite !bool_decide_eq_false_2 by assumption.
    rewrite Hc, Ha, (IH Hs).
    destruct (compile t); reflexivity.
Qed.

Lemma compile_literal s :
  literal s = true → compile s = Some (ALit <$> chars s).
Proof.
  intros H. pose proof (compile_literal_app s "" H) as E.
  rewrite append_empty in E. rewrite E. simpl. rewrite app_nil_r.
  reflexivity.
Qed.

Lemma compile_anchored s :
  literal s = true →
  compile ("^" +:+ s +:+ "$")
    = Some (ABegin :: (ALit <$> chars s) ++ [AEnd])%list.
Proof.
  intros H. change ("^" +:+ s +:+ "$") with (String "^" (s +:+ "$")).
  rewrite compile_cons. cbn [bool_decide decide_rel].
  rewrite (compile_literal_app s "$" H). reflexivity.
Qed.

Lemma match_here_literal bos q s :
  match_here true bos (ALit <$> chars q) s
    = starts (toLowerCase q) (toLowerCase s).
Proof.
  revert bos s. induction q as [|c q IH]; intros bos s; [reflexivity|].
  destruct s as [|d s]; [reflexivity|].
  cbn [chars fmap list_fmap match_here toLowerCase starts atom_char].
  rewrite IH. reflexivity.
Qed.

(** With the [i] flag, a literal pattern matches the subjects that contain
    it, letter case apart. *)
Lemma match_from_literal bos q s :
  match_from true bos (ALit <$> chars q) s = contains_ci q s.
Proof.
  unfold contains_ci. revert bos. induction s as [|d s IH]; intros bos.
  - cbn [match_from toLowerCase includes]. rewrite match_here_literal.
    reflexivity.
  - cbn [match_from toLowerCase includes]. rewrite match_here_literal, IH.
    reflexivity.
Qed.

Lemma match_here_exact bos q s :
  match_here true bos ((ALit <$> chars q) ++ [AEnd])%list s = equal_ci s q.
Proof.
  unfold equal_ci. revert bos s. induction q as [|c q IH]; intros bos s.
  - destruct s; reflexivity.
  - destruct s as [|d s]; [reflexivity|].
    cbn [chars fmap list_fmap app match_here toLowerCase atom_char].
    rewrite IH. clear.
    destruct (decide (lower_ascii c = lower_ascii d)) as [E|E].
    + rewrite bool_decide_eq_true_2 by assumption. rewrite E. simpl.
      apply bool_decide_ext. split; congruence.
    + rewrite bool_decide_eq_false_2 by assumption. simpl. symmetry.
      apply bool_decide_eq_false_2. congruence.
Qed.

Lemma match_from_begin_later atoms s :
  match_from true false (ABegin :: atoms) s = false.
Proof.
  induction s as [|d s IH]; [reflexivity|].
  cbn [match_from match_here andb orb]. exact IH.
Qed.

(** With the [i] flag, a literal pattern between the two anchors matches
    the subjects that are equal to it, letter case apart. *)
Lemma match_from_exact q s :
  match_from true true (ABegin :: (ALit <$> chars q) ++ [AEnd])%list s
    = equal_ci s q.
Proof.
  destruct s as [|d s]; cbn [match_from match_here andb].
  - rewrite match_here_exact. apply orb_false_r.
  - rewrite match_here_exact, match_from_begin_later. apply orb_false_r.
Qed.

Lemma field_matches_literal q f :
  field_matches (ALit <$> chars q) f = field_contains q f.
Proof. destruct f; [apply match_from_literal|reflexivity]. Qed.

(** *** The case of the letters of a pattern *)

Ltac each_ascii c := destruct c as [[] [] [] [] [] [] [] []].

Lemma lower_ascii_idem c : lower_ascii (lower_ascii c) = lower_ascii c.
Proof. each_ascii c; reflexivity. Qed.

Lemma lower_ascii_is_ascii c : is_ascii (lower_ascii c) = is_ascii c.
Proof. each_ascii c; reflexivity. Qed.




Lemma chars_app s t : chars (s +:+ t) = app (chars s) (chars t).
Proof.
  induction s as [|c s IH]; [reflexivity|].
  change (String c s +:+ t) with (String c (s +:+ t)).
  cbn [chars app]. rewrite IH. reflexivity.
Qed.

Lemma ascii_only_lower s : ascii_only (toLowerCase s) = ascii_only s.
Proof.
  unfold ascii_only. induction s as [|c s IH]; [reflexivity|].
  cbn [toLowerCase chars forallb]. rewrite lower_ascii_is_ascii, IH.
  reflexivity.
Qed.



Lemma atom_char_fold a c : atom_char true (fold_atom a) c = atom_char true a c.
Proof. destruct a; cbn; rewrite ?lower_ascii_idem; reflexivity. Qed.












(** ** Lists of documents *)

Lemma find_has_id {I} `{EqDecision I} (id : I) l it :
  List.find (has_id id) l = Some it → i_id it = id ∧ In it l.
Proof.
  intros H. apply List.find_some in H as [Hin H]. split; [|assumption].
  unfold has_id in H. apply bool_decide_eq_true in H. assumption.
Qed.

Lemma find_replace_first {A} (p : A → bool) x y l :
  List.find p l = Some y → p x = true →
  List.find p (replace_first p x l) = Some x.
Proof.
  induction l as [|a l IH]; simpl; [discriminate|].
  destruct (p a) eqn:Ea; intros H Hx.
  - simpl. rewrite Hx. reflexivity.
  - simpl. rewrite Ea. auto.
Qed.

Lemma remove_first_length {A} (p : A → bool) l x :
  List.find p l = Some x → S (length (remove_first p l)) = length l.
Proof.
  induction l as [|a l IH]; simpl; [discriminate|].
  destruct (p a); intros H; [reflexivity|]. simpl. rewrite IH; auto.
Qed.

Lemma insert_by_elem {A} (before : A → A → bool) x y l :
  y ∈ insert_by before x l ↔ y = x ∨ y ∈ l.
Proof.
  induction l as [|a l IH]; simpl.
  - rewrite list_elem_of_singleton, elem_of_nil. tauto.
  - destruct (before x a).
    + rewrite elem_of_cons. reflexivity.
    + rewrite !elem_of_cons, IH. tauto.
Qed.

(** The sort keeps the elements. *)
Lemma sort_by_elem {A} (before : A → A → bool) y l :
  y ∈ sort_by before l ↔ y ∈ l.
Proof.
  unfold sort_by. induction l as [|a l IH]; simpl; [reflexivity|].
  rewrite insert_by_elem, elem_of_cons, IH. reflexivity.
Qed.

Lemma by_rating_desc_total a b :
  by_rating_desc a b = false → by_rating_desc b a = true.
Proof. unfold by_rating_desc. apply num_le_total. Qed.

Lemma descending_cons a l :
  descending (a :: l) =
    match l with
    | [] => true
    | b :: _ => by_rating_desc a b && descending l
    end.
Proof. destruct l; reflexivity. Qed.

Lemma descending_tail a l : descending (a :: l) = true → descending l = true.
Proof.
  rewrite descending_cons. destruct l; [reflexivity|].
  intros H. apply andb_true_iff in H. tauto.
Qed.

Lemma descending_insert x l :
  descending l = true → descending (insert_by by_rating_desc x l) = true.
Proof.
  induction l as [|y l IH]; intros H; [reflexivity|].
  cbn [insert_by]. destruct (by_rating_desc x y) eqn:E.
  - rewrite descending_cons, E, H. reflexivity.
  - pose proof (IH (descending_tail _ _ H)) as IH'.
    apply by_rating_desc_total in E.
    destruct l as [|z l]; cbn [insert_by] in *.
    + cbn [descending]. rewrite E. reflexivity.
    + rewrite descending_cons in H. apply andb_true_iff in H as [Hyz _].
      destruct (by_rating_desc x z).
      * rewrite descending_cons, E, IH'. reflexivity.
      * rewrite descending_cons, Hyz, IH'. reflexivity.
Qed.

(** The sort on [rating.average] gives a descending list. *)
Lemma descending_sort l : descending (sort_by by_rating_desc l) = true.
Proof.
  unfold sort_by. induction l as [|a l IH]; [reflexivity|].
  simpl. apply descending_insert, IH.
Qed.

Lemma descending_take n l :
  descending l = true → descending (take n l) = true.
Proof.
  revert l. induction n as [|n IH]; intros l H; [destruct l; reflexivity|].
  destruct l as [|a l]; [reflexivity|]. cbn [take].
  rewrite descending_cons. pose proof (IH l (descending_tail _ _ H)) as IH'.
  destruct l as [|b l]; [destruct n; reflexivity|].
  destruct n; [reflexivity|]. cbn [take] in *. rewrite IH'.
  rewrite descending_cons in H. apply andb_true_iff in H as [-> _].
  reflexivity.
Qed.

Lemma descending_head a l b :
  descending (a :: l) = true → b ∈ l → by_rating_desc a b = true.
Proof.
  revert a. induction l as [|c l IH]; intros a H Hb; [inversion Hb|].
  rewrite descending_cons in H. apply andb_true_iff in H as [Hac Hl].
  apply elem_of_cons in Hb as [->|Hb]; [exact Hac|].
  unfold by_rating_desc in *.
  eapply num_le_trans; [apply (IH c Hl Hb)|exact Hac].
Qed.

(** A list whose neighbours are in order is in order throughout. *)
Lemma descending_sorted l : descending l = true → sorted_by_rating l.
Proof.
  induction l as [|x l IH]; intros H i j a b Hij Hi Hj.
  - rewrite lookup_nil in Hi. discriminate.
  - destruct j as [|j]; [lia|]. cbn in Hj. destruct i as [|i].
    + cbn in Hi. injection Hi as <-.
      apply (descending_head x l b H). eapply list_elem_of_lookup_2, Hj.
    + cbn in Hi. apply (IH (descending_tail _ _ H) i j); [lia|exact Hi|exact Hj].
Qed.

(** ** Running a handler body *)

Lemma bind_run {A B} (m : M A) (f : A → M B) w :
  (m ≫= f) w = match m w with
               | (Ret a, w') => f a w'
               | (Throw e, w') => (Throw e, w')
               | (Stuck, w') => (Stuck, w')
               end.
Proof. reflexivity. Qed.

Lemma await_store_ok n w :
  store_ok (S n) w = true →
  await_store w = (Ret (), served w) ∧ store_ok n (served w) = true.
Proof.
  unfold store_ok, await_store, served.
  destruct (w_faults w) as [|[] fs]; simpl; try discriminate.
  - intros _. split; [reflexivity|]. destruct n; reflexivity.
  - intros H. split; [reflexivity|assumption].
Qed.

Lemma store_ok_served n w :
  store_ok (S n) w = true → store_ok n (served w) = true.
Proof. intros H. apply (await_store_ok _ _ H). Qed.

Lemma store_ok_weaken n w : store_ok (S n) w = true → store_ok n w = true.
Proof.
  unfold store_ok. generalize (w_faults w).
  induction n as [|n IH]; intros [|f fs]; simpl; try reflexivity.
  intros H. apply andb_true_iff in H as [Hf H]. rewrite Hf. simpl.
  apply (IH fs). assumption.
Qed.

Lemma store_ok_le m n w :
  (m ≤ n)%nat → store_ok n w = true → store_ok m w = true.
Proof.
  intros Hle. induction Hle as [|n Hle IH]; [trivial|].
  intros H. apply IH, store_ok_weaken, H.
Qed.

Lemma store_ok_faults n w w' :
  w_faults w' = w_faults w → store_ok n w' = store_ok n w.
Proof. unfold store_ok. intros ->. reflexivity. Qed.

Lemma hydrate_item_run it w :
  hydrate_item it w
    = (Ret (hydrated_item (w_heap w) it), with_heap (S (S (w_heap w))) w).
Proof. reflexivity. Qed.

Lemma alloc_all_run hs w :
  alloc_all hs w
    = (Ret (allocated (w_heap w) hs), with_heap (length hs + w_heap w) w).
Proof.
  revert w. induction hs as [|x hs IH]; intros w.
  - destruct w; reflexivity.
  - simpl. rewrite bind_run. cbn [alloc]. rewrite bind_run, IH. cbn.
    rewrite Nat.add_succ_r. reflexivity.
Qed.

Lemma hydrate_shop_run s w :
  hydrate_shop s w
    = (Ret (hydrated_shop (w_heap w) s),
       with_heap (length (s_items s) + S (S (w_heap w))) w).
Proof.
  cbv [hydrate_shop mbind M_bind alloc mret M_ret]. rewrite alloc_all_run.
  reflexivity.
Qed.

Lemma castObjectId_run s id w :
  parseObjectId s = Some id → castObjectId s w = (Ret id, w).
Proof. unfold castObjectId. intros ->. reflexivity. Qed.

Lemma parse_nonempty s id : parseObjectId s = Some id → s ≠ "".
Proof. intros H ->. discriminate. Qed.

Lemma findById_run s id n w :
  parseObjectId s = Some id → store_ok (S n) w = true →
  Item.findById s w =
    match List.find (has_id id) (w_items w) with
    | Some it => (Ret (Some (hydrated_item (w_heap w) it)),
                  with_heap (S (S (w_heap w))) (served w))
    | None => (Ret None, served w)
    end.
Proof.
  intros Hs Hok. unfold Item.findById.
  rewrite bind_run, (castObjectId_run _ _ _ Hs).
  rewrite bind_run. destruct (await_store_ok _ _ Hok) as [-> _].
  rewrite bind_run. cbn [world].
  change (w_items (served w)) with (w_items w).
  destruct (List.find (has_id id) (w_items w)); reflexivity.
Qed.

Lemma save_run d it0 n w :
  store_ok (S n) w = true →
  List.find (has_id (ohex (i_id d))) (w_items w) = Some it0 →
  Item.save d w =
    (Ret (),
     with_items (replace_first (has_id (ohex (i_id d)))
                   (rated (item_values d) (i_rating d) (w_now w)))
       (served w)).
Proof.
  intros Hok Hf. unfold Item.save. rewrite bind_run.
  destruct (await_store_ok _ _ Hok) as [-> _].
  rewrite bind_run. cbn [world].
  change (w_items (served w)) with (w_items w).
  rewrite Hf. reflexivity.
Qed.

Lemma findByIdAndDelete_run s id n w :
  parseObjectId s = Some id → store_ok (S n) w = true →
  Item.findByIdAndDelete s w =
    match List.find (has_id id) (w_items w) with
    | Some it => (Ret (Some (hydrated_item (w_heap w) it)),
                  with_heap (S (S (w_heap w)))
                    (with_items (remove_first (has_id id)) (served w)))
    | None => (Ret None, served w)
    end.
Proof.
  intros Hs Hok. unfold Item.findByIdAndDelete.
  rewrite bind_run, (castObjectId_run _ _ _ Hs).
  rewrite bind_run. destruct (await_store_ok _ _ Hok) as [-> _].
  rewrite bind_run. cbn [world].
  change (w_items (served w)) with (w_items w).
  destruct (List.find (has_id id) (w_items w)); reflexivity.
Qed.

Lemma findOne_run s uid n w :
  parseObjectId s = Some uid → store_ok (S n) w = true →
  Shop.findOne s w =
    match List.find (λ s, bool_decide (s_owner s = uid)) (w_shops w) with
    | Some sh => (Ret (Some (hydrated_shop (w_heap w) sh)),
                  with_heap (length (s_items sh) + S (S (w_heap w)))
                    (served w))
    | None => (Ret None, served w)
    end.
Proof.
  intros Hs Hok. unfold Shop.findOne.
  rewrite bind_run, (castObjectId_run _ _ _ Hs).
  rewrite bind_run. destruct (await_store_ok _ _ Hok) as [-> _].
  rewrite bind_run. cbn [world].
  change (w_shops (served w)) with (w_shops w).
  destruct (List.find _ (w_shops w)); [|reflexivity].
  rewrite bind_run, hydrate_shop_run. reflexivity.
Qed.

(** For a city of literal characters, the shops of the query are those
    whose city is that string, letter case apart, when the cities of the
    shops are plain texts. *)
Lemma find_city_literal {A} city (sel : ShopDoc oid → A) w :
  literal city = true →
  Shop.find_city city sel w =
    match head (w_faults w) with
    | Some true => (Throw StoreError, served w)
    | _ =>
        if plain_cities (w_shops w) then
          (Ret (sel <$> List.filter (λ s, equal_ci (s_city s) city)
                                    (w_shops w)),
           served w)
        else (Stuck, served w)
    end.
Proof.
  intros H. unfold Shop.find_city. rewrite (compile_anchored _ H).
  rewrite bind_run. unfold await_store.
  destruct (head (w_faults w)) as [[]|]; try reflexivity.
  all: rewrite bind_run; cbn [world];
    change (w_shops (served w)) with (w_shops w);
    destruct (plain_cities (w_shops w)); [|reflexivity];
    unfold mret, M_ret; do 3 f_equal;
    apply List.filter_ext; intros s; apply match_from_exact.
Qed.

Lemma forallb_all {A} (l : list A) : forallb (λ _, true) l = true.
Proof. induction l as [|a l IH]; [reflexivity|exact IH]. Qed.

Lemma find_limit_sort_run defined filter n k w :
  store_ok (S k) w = true →
  forallb defined (w_items w) = true →
  Item.find_limit_sort defined filter n w =
    (Ret (take n (sort_by by_rating_desc
                    (itemProjection <$> List.filter filter (w_items w)))),
     served w).
Proof.
  intros Hok Hd. unfold Item.find_limit_sort. rewrite bind_run.
  destruct (await_store_ok _ _ Hok) as [-> _].
  rewrite bind_run. cbn [world].
  change (w_items (served w)) with (w_items w). rewrite Hd. reflexivity.
Qed.

Lemma find_limit_sort_all filter n k w :
  store_ok (S k) w = true →
  Item.find_limit_sort (λ _, true) filter n w =
    (Ret (take n (sort_by by_rating_desc
                    (itemProjection <$> List.filter filter (w_items w)))),
     served w).
Proof. intros Hok. apply (find_limit_sort_run _ _ _ k); [exact Hok|apply forallb_all]. Qed.

(** ** The cache *)

Lemma cache_get_miss key w :
  (cache.get key w).1 = Ret None →
  ∃ w', cache.get key w = (Ret None, w') ∧ w_items w' = w_items w ∧
        w_shops w' = w_shops w ∧ w_faults w' = w_faults w.
Proof.
  unfold cache.get. destruct (w_cache w !! key) as [e|].
  - destruct (cache.live (w_now w) e); [discriminate|].
    intros _. eexists. split; [reflexivity|]. repeat split.
  - intros _. eexists. split; [reflexivity|]. repeat split.
Qed.

Lemma cache_get_hit key p w w1 :
  cache.get key w = (Ret (Some p), w1) → w1 = w.
Proof.
  unfold cache.get. destruct (w_cache w !! key) as [e|]; [|congruence].
  destruct (cache.live (w_now w) e); congruence.
Qed.

Lemma cache_get_hit_run key p w :
  (cache.get key w).1 = Ret (Some p) → cache.get key w = (Ret (Some p), w).
Proof.
  intros H. destruct (cache.get key w) as [o w1] eqn:E. simpl in H. subst o.
  rewrite (cache_get_hit _ _ _ _ E). reflexivity.
Qed.


(** A read of the cache depends on the entries and the clock only. *)
Lemma cache_get_state key w1 w2 :
  cache_state w1 = cache_state w2 →
  (cache.get key w1).1 = (cache.get key w2).1.
Proof.
  unfold cache_state, cache.get. intros E. injection E as -> ->.
  destruct (w_cache w2 !! key) as [e|]; [|reflexivity].
  destruct (cache.live (w_now w2) e); reflexivity.
Qed.

(** ** Frame: what a body leaves as it is *)

Section Frame.
Context {T : Type} (field : World → T).

Lemma keeps_ret {A} (a : A) : keeps field (mret a).
Proof. intros w. reflexivity. Qed.

Lemma keeps_throw {A} e : keeps field (@throw A e).
Proof. intros w. reflexivity. Qed.

Lemma keeps_world : keeps field world.
Proof. intros w. reflexivity. Qed.

Lemma keeps_bind {A B} (m : M A) (f : A → M B) :
  keeps field m → (∀ a, keeps field (f a)) → keeps field (m ≫= f).
Proof.
  intros Hm Hf w. rewrite bind_run. specialize (Hm w).
  destruct (m w) as [[a|e|] w']; simpl in *; try assumption.
  rewrite Hf. assumption.
Qed.

Lemma keeps_try_catch text (m : M Result) w :
  keeps field m → field (try_catch text m w).2 = field w.
Proof.
  intros Hm. unfold try_catch. specialize (Hm w).
  destruct (m w) as [[a|e|] w']; assumption.
Qed.

End Frame.

Ltac keeps_step :=
  first
    [ apply keeps_ret | apply keeps_throw | apply keeps_world
    | apply keeps_bind; [ | intros ? ]
    | match goal with
      | |- keeps _ (match ?x with _ => _ end) => destruct x
      | |- keeps _ (let _ := _ in _) => cbv zeta
      end ].


(** The steps of a body that leave a field of the store as it is. *)
Ltac keeps_prim :=
  let w := fresh "w" in
  intros w;
  first
    [ reflexivity
    | unfold await_store; destruct (head (w_faults w)) as [[]|]; reflexivity
    | unfold uploadOnCloudinary; destruct (w_upload w _); reflexivity
    | rewrite alloc_all_run; reflexivity
    | unfold cache.get; destruct (w_cache w !! _) as [e|];
      [destruct (cache.live (w_now w) e)|]; reflexivity ].

Ltac keeps_auto := repeat first [ keeps_step | keeps_prim ].

Lemma await_store_keeps : keeps cache_state await_store.
Proof.
  intros w. unfold await_store.
  destruct (head (w_faults w)) as [[]|]; reflexivity.
Qed.

Lemma alloc_keeps h : keeps cache_state (alloc h).
Proof. intros w. reflexivity. Qed.

Lemma alloc_all_keeps hs : keeps cache_state (alloc_all hs).
Proof. intros w. rewrite alloc_all_run. reflexivity. Qed.

Lemma upload_keeps path : keeps cache_state (uploadOnCloudinary path).
Proof.
  intros w. unfold uploadOnCloudinary. destruct (w_upload w path); reflexivity.
Qed.

Lemma new_ObjectId_keeps : keeps cache_state new_ObjectId.
Proof. intros w. reflexivity. Qed.

Lemma update_items_keeps f : keeps cache_state (update (with_items f)).
Proof. intros w. reflexivity. Qed.

Lemma update_shops_keeps f : keeps cache_state (update (with_shops f)).
Proof. intros w. reflexivity. Qed.

Create HintDb frame.

#[local] Hint Resolve await_store_keeps alloc_keeps alloc_all_keeps
  upload_keeps new_ObjectId_keeps update_items_keeps update_shops_keeps
  : frame.

(** The bodies that make no call of the cache keep its state. *)
Ltac frame_cache :=
  apply keeps_try_catch;
  unfold upload_file, Shop.findOne, Shop.save, Shop.populate_owner,
    Shop.populate_items, Item.create, Item.findByIdAndUpdate,
    Item.findByIdAndDelete, Item.findById, Item.save, castObjectId, send,
    message, hydrate_item, hydrate_shop;
  repeat keeps_step; auto with frame.

Lemma addItem_keeps req w : cache_state (addItem req w).2 = cache_state w.
Proof. frame_cache. Qed.

Lemma editItem_keeps req w : cache_state (editItem req w).2 = cache_state w.
Proof. frame_cache. Qed.

Lemma deleteItem_keeps req w : cache_state (deleteItem req w).2 = cache_state w.
Proof. frame_cache. Qed.

Lemma rating_keeps req w : cache_state (rating req w).2 = cache_state w.
Proof. frame_cache. Qed.

Lemma getItemById_keeps req w : cache_state (getItemById req w).2 = cache_state w.
Proof. frame_cache. Qed.

Lemma cache_state_cache w1 w2 :
  cache_state w1 = cache_state w2 → w_cache w1 = w_cache w2.
Proof. unfold cache_state. congruence. Qed.

(** ** What the handlers answer *)

Lemma answers_bind {A} Q (m : M A) (f : A → M Result) :
  (∀ a, answers Q (f a)) → answers Q (m ≫= f).
Proof.
  intros Hf w. rewrite bind_run.
  destruct (m w) as [[a|e|] w']; simpl; try exact I.
  apply Hf.
Qed.

Lemma answers_send (Q : Result → Prop) code b :
  Q (Replied {| status := code; body := b |}) → answers Q (send code b).
Proof. intros H w. exact H. Qed.


Lemma answers_throw Q e : answers Q (throw e).
Proof. intros w. exact I. Qed.

Lemma answers_stuck Q : answers Q stuck.
Proof. intros w. exact I. Qed.

















(** ** Where the model has an answer *)

















(** ** What enters the cache *)

Lemma no_new_bind {A B} (m : M A) (f : A → M B) :
  no_new m → (∀ a, no_new (f a)) → no_new (m ≫= f).
Proof.
  intros Hm Hf w k e. rewrite bind_run. specialize (Hm w k e).
  destruct (m w) as [[a|err|] w']; simpl in *; auto.
  intros H. apply Hm. eapply Hf. exact H.
Qed.

Lemma caches_bind {A} (m : M A) (f : A → M Result) :
  no_new m → (∀ a, caches_success (f a)) → caches_success (m ≫= f).
Proof.
  intros Hm Hf w k e. rewrite bind_run. specialize (Hm w k e).
  destruct (m w) as [[a|err|] w']; simpl in *; auto.
  intros H. destruct (Hf a w' k e H) as [H'|H']; auto.
Qed.

Lemma no_new_caches (m : M Result) : no_new m → caches_success m.
Proof. intros H w k e Hk. left. eapply H, Hk. Qed.

Lemma no_new_ret {A} (a : A) : no_new (mret a).
Proof. intros w k e H. exact H. Qed.

Lemma no_new_throw {A} err : no_new (@throw A err).
Proof. intros w k e H. exact H. Qed.

Lemma no_new_stuck {A} : no_new (@stuck A).
Proof. intros w k e H. exact H. Qed.

Lemma no_new_world : no_new world.
Proof. intros w k e H. exact H. Qed.

Lemma no_new_await : no_new await_store.
Proof.
  intros w k e. unfold await_store.
  destruct (head (w_faults w)) as [[]|]; auto.
Qed.

(** A read of the cache may delete an entry; it adds none. *)
Lemma no_new_get key : no_new (cache.get key).
Proof.
  intros w k e. unfold cache.get.
  destruct (w_cache w !! key) as [e'|] eqn:E; auto.
  destruct (cache.live (w_now w) e'); auto.
  cbn. intros H. apply lookup_delete_Some in H as [_ H]. exact H.
Qed.

Lemma no_new_promise_all {A B} (a : M A) (b : M B) :
  no_new a → no_new b → no_new (promise_all a b).
Proof.
  intros Ha Hb w k e. unfold promise_all. specialize (Ha w k e).
  destruct (a w) as [oa w1]. specialize (Hb w1 k e).
  destruct (b w1) as [ob w2]. simpl in *.
  destruct oa, ob; simpl; auto.
Qed.

Lemma no_new_cast s : no_new (castObjectId s).
Proof.
  unfold castObjectId.
  destruct (parseObjectId s); [apply no_new_ret|apply no_new_throw].
Qed.

Ltac no_new_query :=
  repeat first
    [ apply no_new_await | apply no_new_world | apply no_new_ret
    | apply no_new_cast | apply no_new_stuck
    | apply no_new_bind; [ | intros ? ]
    | match goal with |- no_new (if ?b then _ else _) => destruct b end ].

Lemma no_new_find_city {A} city (sel : ShopDoc oid → A) :
  no_new (Shop.find_city city sel).
Proof. unfold Shop.find_city. destruct (compile _); no_new_query. Qed.

Lemma no_new_find_limit_sort d f n : no_new (Item.find_limit_sort d f n).
Proof. unfold Item.find_limit_sort. no_new_query. Qed.

Lemma no_new_find f : no_new (Item.find f).
Proof. unfold Item.find. no_new_query. Qed.

Lemma no_new_shop_findById s : no_new (Shop.findById s).
Proof. unfold Shop.findById. no_new_query. Qed.

(** The one place where an entry is added: the payload is set, then sent
    with status 200. *)
Lemma caches_set_send key p :
  caches_success (cache.set key p ;; send 200 (BPayload p)).
Proof.
  intros w k e. rewrite bind_run. unfold cache.set, send, mret, M_ret.
  cbn [fst snd w_cache with_cache].
  intros H. apply lookup_insert_Some in H as [[_ <-]|[_ H]]; [right|left].
  - reflexivity.
  - exact H.
Qed.

Lemma caches_try_catch text m w k e :
  caches_success m →
  w_cache (try_catch text m w).2 !! k = Some e →
  w_cache w !! k = Some e ∨ (try_catch text m w).1 = success (ce_value e).
Proof.
  intros Hm. specialize (Hm w k e). unfold try_catch.
  destruct (m w) as [[r|err|] w']; simpl in *; intros H;
    destruct (Hm H) as [H'|H']; auto; try discriminate.
  injection H' as ->. auto.
Qed.

Ltac caches_step :=
  first
    [ apply caches_set_send
    | apply no_new_get | apply no_new_find_city | apply no_new_find_limit_sort
    | apply no_new_find | apply no_new_shop_findById | apply no_new_cast
    | apply no_new_promise_all
    | apply no_new_ret | apply no_new_throw | apply no_new_stuck
    | match goal with
      | |- caches_success (match ?x with _ => _ end) => destruct x
      | |- caches_success (let _ := _ in _) => cbv zeta
      | |- no_new (match ?x with _ => _ end) => destruct x
      | |- caches_success (_ ≫= _) => apply caches_bind; [ | intros ? ]
      | |- no_new (_ ≫= _) => apply no_new_bind; [ | intros ? ]
      | |- caches_success _ => apply no_new_caches
      end ].

Ltac caches_all := apply caches_try_catch; unfold message; repeat caches_step.

Lemma getItemByCity_entries req w k e :
  w_cache (getItemByCity req w).2 !! k = Some e →
  w_cache w !! k = Some e ∨ (getItemByCity req w).1 = success (ce_value e).
Proof. caches_all. Qed.

Lemma getItemsByShop_entries req w k e :
  w_cache (getItemsByShop req w).2 !! k = Some e →
  w_cache w !! k = Some e ∨ (getItemsByShop req w).1 = success (ce_value e).
Proof. caches_all. Qed.

Lemma searchItems_entries req w k e :
  w_cache (searchItems req w).2 !! k = Some e →
  w_cache w !! k = Some e ∨ (searchItems req w).1 = success (ce_value e).
Proof. caches_all. Qed.

(** An entry of the cache after a request was there before it, or is the
    payload that the request answered with status 200. *)
Lemma handle_entries op req w k e :
  w_cache (handle op req w).2 !! k = Some e →
  w_cache w !! k = Some e ∨ (handle op req w).1 = success (ce_value e).
Proof.
  destruct op; cbn [handle];
    auto using getItemByCity_entries, getItemsByShop_entries,
      searchItems_entries;
    intros H; left.
  - rewrite <- (cache_state_cache _ _ (addItem_keeps req w)). exact H.
  - rewrite <- (cache_state_cache _ _ (editItem_keeps req w)). exact H.
  - rewrite <- (cache_state_cache _ _ (getItemById_keeps req w)). exact H.
  - rewrite <- (cache_state_cache _ _ (deleteItem_keeps req w)). exact H.
  - rewrite <- (cache_state_cache _ _ (rating_keeps req w)). exact H.
Qed.

(** On a hit, a cached read answers the payload of the entry. *)
Lemma hit_replays op req w key p :
  cacheKey_of op req = Some key →
  (cache.get key w).1 = Ret (Some p) →
  handle op req w = (success p, w).
Proof.
  intros Hk Hget. apply cache_get_hit_run in Hget.
  destruct op; cbn [cacheKey_of] in Hk; try discriminate; cbn [handle].
  - unfold getItemByCity, try_catch.
    destruct (absent (params_city req)); [discriminate|].
    destruct (negb (ascii_only _)); [discriminate|].
    injection Hk as <-. rewrite bind_run, Hget. reflexivity.
  - injection Hk as <-. unfold getItemsByShop, try_catch.
    rewrite bind_run, Hget. reflexivity.
  - unfold searchItems, try_catch.
    destruct (query_city req) as [|city|]; try discriminate.
    destruct (query_query req) as [|query|]; try discriminate.
    destruct (query_absent (QString query) || query_absent (QString city));
      [discriminate|].
    destruct (negb (ascii_only city && ascii_only query)); [discriminate|].
    injection Hk as <-. rewrite bind_run, Hget. reflexivity.
Qed.

(** In a run, an entry of the cache was there at the start or is the
    payload of an answer of the run with status 200. *)
Lemma run_entries w0 log w :
  run w0 log w →
  ∀ k e, w_cache w !! k = Some e →
    w_cache w0 !! k = Some e ∨ success (ce_value e) ∈ log.
Proof.
  induction 1 as [|log w op req Hrun IH|log w w' Hrun IH Hc|log w Hrun IH];
    intros k e Hk.
  - left. exact Hk.
  - destruct (handle_entries _ _ _ _ _ Hk) as [Hold|Hnew].
    + destruct (IH _ _ Hold) as [?|?]; [left; assumption|right].
      apply list_elem_of_further. assumption.
    + right. rewrite Hnew. apply list_elem_of_here.
  - rewrite Hc in Hk. apply IH, Hk.
  - unfold cache.sweep in Hk. cbn [w_cache with_cache] in Hk.
    apply map_lookup_filter_Some in Hk as [Hk _]. apply IH, Hk.
Qed.

(** * The claims *)

(** ** C1: the rating handler *)

Lemma rating_step w req itemId r id it :
  body_itemId req = Some itemId → body_rating req = Some r →
  (1 <=? r)%float = true → (r <=? 5)%float = true →
  parseObjectId itemId = Some id →
  List.find (has_id id) (w_items w) = Some it →
  store_ok 2 w = true →
  rating req w =
    (Replied {| status := 200; body := BRating (rate (i_rating it) r) |},
     with_items (replace_first (has_id id)
                   (rated it (rate (i_rating it) r) (w_now w)))
       (with_heap (S (S (w_heap w))) (served (served w)))).
Proof.
  intros Hid Hr H1 H5 Hp Hf Hok.
  destruct (find_has_id _ _ _ Hf) as [<- _].
  unfold rating, try_catch. rewrite Hid, Hr.
  rewrite bool_decide_eq_false_2 by (eapply parse_nonempty; eassumption).
  rewrite (ge_one_truthy _ H1). cbn [orb].
  rewrite (leb_not_ltb _ _ H1), (leb_not_ltb _ _ H5). cbn [orb].
  rewrite bind_run, (findById_run _ _ 1 _ Hp Hok), Hf.
  rewrite bind_run.
  destruct (await_store_ok _ _ Hok) as [_ Hok1].
  erewrite (save_run _ it 0).
  - reflexivity.
  - exact Hok1.
  - cbn. exact Hf.
Qed.

Lemma rating_next n w itemId r id it :
  (1 <=? r)%float = true → (r <=? 5)%float = true →
  parseObjectId itemId = Some id →
  List.find (has_id id) (w_items w) = Some it →
  store_ok (S (S n)) w = true →
  ∃ w1,
    rating (rating_request itemId r) w
      = (Replied {| status := 200; body := BRating (rate (i_rating it) r) |},
         w1) ∧
    List.find (has_id id) (w_items w1)
      = Some (rated it (rate (i_rating it) r) (w_now w)) ∧
    store_ok n w1 = true.
Proof.
  intros H1 H5 Hp Hf Hok. eexists. split; [|split].
  - apply (rating_step w _ itemId r id it); try assumption; try reflexivity.
    apply (store_ok_le 2 (S (S n))); [lia|assumption].
  - cbn [w_items with_items with_heap served with_faults].
    eapply find_replace_first; [eassumption|].
    unfold has_id. apply bool_decide_eq_true. cbn.
    apply (find_has_id _ _ _ Hf).
  - apply store_ok_served in Hok. apply store_ok_served in Hok. exact Hok.
Qed.

Lemma rating_sequence w itemId id it :
  parseObjectId itemId = Some id →
  List.find (has_id id) (w_items w) = Some it →
  i_rating it = no_rating →
  store_ok 6 w = true →
  ∃ it',
    last (submit itemId [5; 3; 4]%float w).1
      = Some (Replied {| status := 200;
                         body := BRating {| average := 4%float;
                                            count := 3%float |} |}) ∧
    List.find (has_id id) (w_items (submit itemId [5; 3; 4]%float w).2)
      = Some it' ∧
    i_rating it' = {| average := 4%float; count := 3%float |}.
Proof.
  intros Hp Hf Hr Hok.
  destruct (rating_next 4 w itemId 5%float id it)
    as (w1 & E1 & F1 & K1); try reflexivity; try assumption.
  destruct (rating_next 2 w1 itemId 3%float id _ eq_refl eq_refl Hp F1 K1)
    as (w2 & E2 & F2 & K2).
  destruct (rating_next 0 w2 itemId 4%float id _ eq_refl eq_refl Hp F2 K2)
    as (w3 & E3 & F3 & K3).
  eexists. cbn [submit]. rewrite E1, E2, E3. cbn [fst snd last].
  split; [|split; [exact F3|]].
  - cbn [rated i_rating]. rewrite Hr. reflexivity.
  - cbn [rated i_rating]. rewrite Hr. reflexivity.
Qed.

(** C1.  For an item that exists and a rating in [1,5], the rating handler
    answers 200 with the rating [{ average := (oldAverage * oldCount +
    rating) / newCount; count := newCount }], [newCount = oldCount + 1],
    and writes both in one update of that item: the rest of the items, the
    shops and the cache stay as they are.  From an item with no rating,
    the ratings 5, 3 and 4 leave count 3 and average 4. *)
Theorem rating_running_average :
  (∀ w req itemId r id it,
     body_itemId req = Some itemId → body_rating req = Some r →
     (1 <=? r)%float = true → (r <=? 5)%float = true →
     parseObjectId itemId = Some id →
     List.find (has_id id) (w_items w) = Some it →
     store_ok 2 w = true →
     let newCount := (count (i_rating it) + 1)%float in
     let newAverage :=
       ((average (i_rating it) * count (i_rating it) + r) / newCount)%float in
     let new := {| average := newAverage; count := newCount |} in
     ∃ w',
       rating req w = (Replied {| status := 200; body := BRating new |}, w') ∧
       w_items w'
         = replace_first (has_id id) (rated it new (w_now w)) (w_items w) ∧
       w_shops w' = w_shops w ∧
       w_cache w' = w_cache w) ∧
  (∀ w itemId id it,
     parseObjectId itemId = Some id →
     List.find (has_id id) (w_items w) = Some it →
     i_rating it = no_rating →
     store_ok 6 w = true →
     ∃ it',
       last (submit itemId [5; 3; 4]%float w).1
         = Some (Replied {| status := 200;
                            body := BRating {| average := 4%float;
                                               count := 3%float |} |}) ∧
       List.find (has_id id) (w_items (submit itemId [5; 3; 4]%float w).2)
         = Some it' ∧
       i_rating it' = {| average := 4%float; count := 3%float |}).
Proof.
  split.
  - intros w req itemId r id it Hid Hr H1 H5 Hp Hf Hok. cbv zeta.
    eexists. split; [|split; [|split]].
    + apply (rating_step w req itemId r id it); assumption.
    + reflexivity.
    + reflexivity.
    + reflexivity.
  - apply rating_sequence.
Qed.

(** C1 on [pune_world]: the fries, which have no rating yet, are rated 5,
    then 3, then 4. *)
Lemma rating_running_average_witness :
  (∃ w',
     rating (rating_request fries_id 5%float) pune_world
       = (Replied {| status := 200;
                     body := BRating {| average := 5%float;
                                        count := 1%float |} |}, w')) ∧
  last (submit fries_id [5; 3; 4]%float pune_world).1
    = Some (Replied {| status := 200;
                       body := BRating {| average := 4%float;
                                          count := 3%float |} |}).
Proof.
  destruct rating_running_average as [Hstep Hseq]. split.
  - destruct (Hstep pune_world (rating_request fries_id 5%float) fries_id
                5%float fries_id
                (menu_item fries_id "Fries" "Snacks" no_rating))
      as (w' & E & _); [reflexivity..|].
    exists w'. exact E.
  - destruct (Hseq pune_world fries_id fries_id
                (menu_item fries_id "Fries" "Snacks" no_rating))
      as (it' & E & _); [reflexivity..|].
    exact E.
Defined.

(** ** C2: the list of the shop after a delete *)

Lemma allocated_values h hs : ohex <$> allocated h hs = hs.
Proof.
  revert h. induction hs as [|x hs IH]; intros h; [reflexivity|].
  cbn. rewrite IH. reflexivity.
Qed.

(** The objects of a list hydrated later than [o] are all other objects
    than [o]: the test [i !== o] keeps every one of them. *)
Lemma filter_strict_ne_allocated o h hs :
  (oref o < h)%nat →
  List.filter (λ i, strict_ne i o) (allocated h hs) = allocated h hs.
Proof.
  revert h. induction hs as [|x hs IH]; intros h Hlt; [reflexivity|].
  cbn [allocated List.filter]. unfold strict_ne at 1. cbn [oref].
  destruct (Nat.eqb_spec h (oref o)) as [E|_]; [lia|]. cbn [negb].
  rewrite IH by lia. reflexivity.
Qed.

Lemma shop_save_run d s0 n w :
  store_ok (S n) w = true →
  List.find (shop_has_id (ohex (s_id d))) (w_shops w) = Some s0 →
  Shop.save d w =
    (Ret (),
     with_shops (replace_first (shop_has_id (ohex (s_id d))) (shop_values d))
       (served w)).
Proof.
  intros Hok Hf. unfold Shop.save. rewrite bind_run.
  destruct (await_store_ok _ _ Hok) as [-> _].
  rewrite bind_run. cbn [world].
  change (w_shops (served w)) with (w_shops w).
  rewrite Hf. reflexivity.
Qed.

Lemma populate_items_run d n w :
  store_ok (S n) w = true →
  Shop.populate_items d w =
    (Ret (sort_by by_updatedAt_desc
            (List.filter (λ it, bool_decide (i_id it ∈ ohex <$> s_items d))
                         (w_items w))),
     served w).
Proof.
  intros Hok. unfold Shop.populate_items. rewrite bind_run.
  destruct (await_store_ok _ _ Hok) as [-> _]. reflexivity.
Qed.

(** Whatever the store holds, a delete by the owner of a shop writes the
    shop back with the list of items that it had: the filter removes
    nothing. *)
Lemma deleteItem_list_kept req w id it uid sh :
  parseObjectId (params_itemId req) = Some id →
  List.find (has_id id) (w_items w) = Some it →
  parseObjectId (userId req) = Some uid →
  List.find (λ s, bool_decide (s_owner s = uid)) (w_shops w) = Some sh →
  List.find (shop_has_id (s_id sh)) (w_shops w) = Some sh →
  store_ok 4 w = true →
  ∃ shop w',
    deleteItem req w
      = (Replied {| status := 200; body := BShop (Some shop) |}, w') ∧
    w_items w' = remove_first (has_id id) (w_items w) ∧
    w_shops w' = replace_first (shop_has_id (s_id sh)) sh (w_shops w).
Proof.
  intros Hp Hf Hu Hs Hsid Hok.
  pose proof (store_ok_served _ _ Hok) as Hok1.
  pose proof (store_ok_served _ _ Hok1) as Hok2.
  pose proof (store_ok_served _ _ Hok2) as Hok3.
  eexists _, _. split; [|split].
  - unfold deleteItem, try_catch. rewrite bind_run.
    rewrite (findByIdAndDelete_run _ _ 3 _ Hp Hok), Hf.
    rewrite bind_run. erewrite (findOne_run _ _ 2 _ Hu); [|exact Hok1].
    cbn [w_shops with_heap with_items served with_faults]. rewrite Hs.
    cbn [w_heap with_heap with_items served with_faults].
    cbn [hydrated_shop hydrated_item s_items i_id].
    rewrite filter_strict_ne_allocated by (cbn; lia).
    rewrite bind_run. erewrite (shop_save_run _ sh 1); [| exact Hok2 | exact Hsid].
    rewrite bind_run. erewrite (populate_items_run _ 0); [|exact Hok3].
    reflexivity.
  - reflexivity.
  - cbn. unfold shop_values. cbn. rewrite allocated_values.
    destruct sh; reflexivity.
Qed.

(** C2.  On the store of [pune_world], the owner of the shop deletes the
    pizza: the handler answers 200 with the shop, whose populated items no
    longer hold the pizza, and the item is gone from the store; but the
    list [items] of the stored shop still holds its id. *)
Theorem deleteItem_keeps_id_in_shop_list :
  let '(res, w') := deleteItem (item_request owner_id pizza_id) pune_world in
  (∃ shop, res = Replied {| status := 200; body := BShop (Some shop) |} ∧
           pizza_id ∉ i_id <$> ps_items shop) ∧
  List.find (has_id pizza_id) (w_items w') = None ∧
  ∃ s, List.find (shop_has_id shop_id) (w_shops w') = Some s ∧
       pizza_id ∈ s_items s.
Proof.
  vm_compute. split; [|split].
  - eexists. split; [reflexivity|].
    intros H. apply list_elem_of_In in H. simpl in H. intuition discriminate.
  - reflexivity.
  - eexists. split; [reflexivity|]. apply list_elem_of_here.
Qed.

(** ** C3: the mutations and the cache *)

Lemma mutation_keeps op req w :
  is_mutation op = true → cache_state (handle op req w).2 = cache_state w.
Proof.
  destruct op; try discriminate; intros _; cbn [handle].
  - apply addItem_keeps.
  - apply editItem_keeps.
  - apply deleteItem_keeps.
  - apply rating_keeps.
Qed.

(** C3.  An add, an edit, a delete or a rating leaves every entry of the
    cache as it was: no entry is removed, none is overwritten, and a read
    of any key after the mutation finds what it found before it, so the
    entry that was cached before a write is served until it expires. *)
Theorem mutations_keep_cache op req w :
  is_mutation op = true →
  w_cache (handle op req w).2 = w_cache w ∧
  ∀ key, (cache.get key (handle op req w).2).1 = (cache.get key w).1.
Proof.
  intros Hop. pose proof (mutation_keeps op req w Hop) as H. split.
  - apply cache_state_cache, H.
  - intros key. apply cache_get_state, H.
Qed.

(** C3 on [pune_world], at a rating of the fries. *)
Lemma mutations_keep_cache_witness :
  w_cache (handle SubmitRating (rating_request fries_id 5%float) pune_world).2
    = w_cache pune_world.
Proof.
  apply (mutations_keep_cache SubmitRating (rating_request fries_id 5%float)
           pune_world).
  reflexivity.
Defined.

(** The staleness that follows: the items of Pune are cached, the pizza is
    rated, and until the entry expires (300 seconds after it was set) the
    read under the other spelling still answers the payload of before the
    rating; one millisecond later it answers the new average. *)
Example stale_read_until_expiry :
  let first := getItemByCity (city_request "Pune") pune_world in
  let w2 := (rating (rating_request pizza_id 5%float) first.2).2 in
  (getItemByCity (city_request "pune") (with_now 300000 w2)).1 = first.1 ∧
  (getItemByCity (city_request "pune") (with_now 300001 w2)).1 ≠ first.1.
Proof.
  cbv zeta. split; [vm_compute; reflexivity|].
  intros H.
  apply (f_equal (λ r,
           match r with
           | Replied {| body := BPayload (PCity (_ :: it :: _)) |} =>
               PrimFloat.eqb (average (v_rating (ws_item it))) 3%float
           | _ => true
           end)) in H.
  vm_compute in H. discriminate.
Qed.

(** ** C5: an add whose upload fails *)

(** C5.  When the upload of the image fails, [addItem] answers 500 and the
    world is as it was: no item is created and the list of no shop
    grows. *)
Theorem addItem_upload_fails req w path :
  file req = Some path → w_upload w path = None →
  addItem req w =
    (Replied {| status := 500;
                body := BFailure "add item error " UploadError |}, w).
Proof.
  intros Hf Hu. unfold addItem, try_catch. rewrite bind_run.
  unfold upload_file. rewrite Hf, bind_run. unfold uploadOnCloudinary.
  rewrite Hu. reflexivity.
Qed.

(** C5 on [pune_world], whose uploader fails. *)
Lemma addItem_upload_fails_witness :
  addItem (upload_request owner_id "/tmp/fries.png") pune_world =
    (Replied {| status := 500;
                body := BFailure "add item error " UploadError |},
     pune_world).
Proof.
  apply (addItem_upload_fails (upload_request owner_id "/tmp/fries.png")
           pune_world "/tmp/fries.png"); reflexivity.
Defined.

(** ** C7: the ratings that are refused *)

(** C7.  A request with no [itemId], or with a rating below 1 or above 5,
    is answered 400 with a message, and the world is as it was: the rating
    of no item changes. *)
Theorem rating_rejects req w :
  absent (body_itemId req) = true ∨
  (∃ r, body_rating req = Some r ∧
        ((r <? 1)%float = true ∨ (5 <? r)%float = true)) →
  ∃ text,
    rating req w = (Replied {| status := 400; body := BMessage text |}, w).
Proof.
  intros H. unfold rating, try_catch.
  destruct (body_itemId req) as [itemId|] eqn:Ei,
           (body_rating req) as [r|] eqn:Er;
    try (eexists; reflexivity).
  destruct (bool_decide (itemId = "") || num_falsy r) eqn:E1;
    [eexists; reflexivity|].
  destruct H as [H|(r' & Hr & H)].
  - simpl in H. rewrite H in E1. discriminate.
  - injection Hr as <-.
    assert ((r <? 1)%float || (5 <? r)%float = true) as ->
      by (destruct H as [-> | ->]; [reflexivity|apply orb_true_r]).
    eexists; reflexivity.
Qed.

(** C7 at the ratings 0 and 6 and at an empty [itemId]. *)
Lemma rating_rejects_witness :
  (∃ text, rating (rating_request fries_id 0%float) pune_world
           = (Replied {| status := 400; body := BMessage text |}, pune_world)) ∧
  (∃ text, rating (rating_request fries_id 6%float) pune_world
           = (Replied {| status := 400; body := BMessage text |}, pune_world)) ∧
  (∃ text, rating (rating_request "" 4%float) pune_world
           = (Replied {| status := 400; body := BMessage text |}, pune_world)).
Proof.
  split; [|split].
  - apply (rating_rejects (rating_request fries_id 0%float) pune_world).
    right. exists 0%float. split; [reflexivity|]. left. reflexivity.
  - apply (rating_rejects (rating_request fries_id 6%float) pune_world).
    right. exists 6%float. split; [reflexivity|]. right. reflexivity.
  - apply (rating_rejects (rating_request "" 4%float) pune_world).
    left. reflexivity.
Defined.

(** ** C10: a delete by a requester with no shop *)

(** C10.  When the item exists and the requester owns no shop, the item is
    deleted from the store before the shop is looked up, and the handler
    answers 500, the error of reading [items] of [null]: the shops and the
    cache are as they were, the items are one fewer. *)
Theorem deleteItem_without_shop req w id it uid :
  parseObjectId (params_itemId req) = Some id →
  List.find (has_id id) (w_items w) = Some it →
  parseObjectId (userId req) = Some uid →
  List.find (λ s, bool_decide (s_owner s = uid)) (w_shops w) = None →
  store_ok 2 w = true →
  ∃ w',
    deleteItem req w =
      (Replied {| status := 500;
                  body := BFailure "delete item error " TypeError |}, w') ∧
    w_items w' = remove_first (has_id id) (w_items w) ∧
    S (length (w_items w')) = length (w_items w) ∧
    w_shops w' = w_shops w ∧
    w_cache w' = w_cache w.
Proof.
  intros Hp Hf Hu Hs Hok. eexists. split; [|split; [|split; [|split]]].
  - unfold deleteItem, try_catch. rewrite bind_run.
    rewrite (findByIdAndDelete_run _ _ 1 _ Hp Hok), Hf.
    rewrite bind_run. erewrite (findOne_run _ _ 0 _ Hu).
    + cbn [w_shops with_heap with_items served with_faults]. rewrite Hs.
      reflexivity.
    + apply store_ok_served in Hok. exact Hok.
  - reflexivity.
  - cbn. apply remove_first_length with it. exact Hf.
  - reflexivity.
  - reflexivity.
Qed.

(** C10 on [pune_world]: a guest, who owns no shop, deletes the pizza. *)
Lemma deleteItem_without_shop_witness :
  ∃ w',
    deleteItem (item_request guest_id pizza_id) pune_world =
      (Replied {| status := 500;
                  body := BFailure "delete item error " TypeError |}, w') ∧
    List.find (has_id pizza_id) (w_items w') = None ∧
    w_shops w' = w_shops pune_world.
Proof.
  destruct (deleteItem_without_shop (item_request guest_id pizza_id)
              pune_world pizza_id
              (menu_item pizza_id "Pizza" "Snacks"
                 {| average := 3%float; count := 2%float |})
              guest_id)
    as (w' & E & Hi & _ & Hs & _); [reflexivity..|].
  exists w'. split; [exact E|]. split; [|exact Hs].
  rewrite Hi. reflexivity.
Defined.

(** ** C4: the search *)




(** ** C6: two spellings of a city *)










(** ** C8: what the handlers answer *)











(** ** C9: what the cache holds *)

Lemma cache_get_entry key p w :
  (cache.get key w).1 = Ret (Some p) →
  ∃ e, w_cache w !! key = Some e ∧ ce_value e = p.
Proof.
  unfold cache.get. destruct (w_cache w !! key) as [e|]; [|discriminate].
  destruct (cache.live (w_now w) e); [|discriminate].
  cbn. intros H. injection H as <-. eauto.
Qed.

(** C9.  An entry of the cache after a request was there before it or is
    the payload that this request answered with status 200: an answer of
    another status (404, 500) caches nothing.  In a run from an empty
    cache, every entry is the payload of an earlier answer 200, and a hit
    answers such a payload again. *)
Theorem cache_holds_successes :
  (∀ op req w k e,
     w_cache (handle op req w).2 !! k = Some e →
     w_cache w !! k = Some e ∨ (handle op req w).1 = success (ce_value e)) ∧
  (∀ op req w r,
     (handle op req w).1 = Replied r → status r ≠ 200 →
     ∀ k e, w_cache (handle op req w).2 !! k = Some e →
            w_cache w !! k = Some e) ∧
  (∀ w0 log w,
     run w0 log w → w_cache w0 = ∅ →
     (∀ k e, w_cache w !! k = Some e → success (ce_value e) ∈ log) ∧
     (∀ op req key p,
        cacheKey_of op req = Some key →
        (cache.get key w).1 = Ret (Some p) →
        (handle op req w).1 = success p ∧ success p ∈ log)).
Proof.
  split; [|split].
  - apply handle_entries.
  - intros op req w r Hr Hs k e Hk.
    destruct (handle_entries _ _ _ _ _ Hk) as [H|H]; [exact H|].
    rewrite Hr in H. injection H as ->. contradiction Hs. reflexivity.
  - intros w0 log w Hrun H0.
    assert (∀ k e, w_cache w !! k = Some e → success (ce_value e) ∈ log)
      as Hall.
    { intros k e Hk. destruct (run_entries _ _ _ Hrun _ _ Hk) as [H|H];
        [|exact H].
      rewrite H0, lookup_empty in H. discriminate. }
    split; [exact Hall|].
    intros op req key p Hkey Hget. split.
    + rewrite (hit_replays _ _ _ _ _ Hkey Hget). reflexivity.
    + destruct (cache_get_entry _ _ _ Hget) as (e & He & <-).
      apply (Hall _ _ He).
Qed.

(** C9 on the run of one search from [pune_world]: the same search again
    is a hit, and answers what the first one answered. *)
Lemma cache_holds_successes_witness :
  (handle SearchItems (search_request (QString "burger") (QString "Pune"))
     (handle SearchItems (search_request (QString "burger") (QString "Pune"))
        pune_world).2).1
  = (handle SearchItems (search_request (QString "burger") (QString "Pune"))
       pune_world).1.
Proof.
  set (req := search_request (QString "burger") (QString "Pune")).
  destruct cache_holds_successes as (_ & _ & Hrun).
  destruct (Hrun pune_world _ _
              (run_request pune_world [] pune_world SearchItems req
                 (run_start pune_world)) eq_refl) as [_ Hhit].
  destruct (Hhit SearchItems req "search_pune_burger"
              (PSearch [itemProjection
                          (menu_item burger_id "Veg Burger" "Burgers"
                             {| average := 4.5%float; count := 2%float |})]))
    as [E Hin]; [reflexivity | reflexivity | ].
  apply list_elem_of_singleton in Hin. rewrite E, Hin. reflexivity.
Defined.

(** * Further properties of the handlers

    What the handlers do beyond the claims: what each of them leaves as it
    is, what it answers and writes on each of its paths, what the cached
    reads find and for how long they repeat it, and what becomes of a
    request when the store rejects a call. *)

(** ** What a handler leaves as it is *)

Lemma keeps_promise_all {T A B} (field : World → T) (a : M A) (b : M B) :
  keeps field a → keeps field b → keeps field (promise_all a b).
Proof.
  intros Ha Hb w. unfold promise_all. specialize (Ha w).
  destruct (a w) as [oa w1]. specialize (Hb w1).
  destruct (b w1) as [ob w2]. simpl in *.
  destruct oa, ob; simpl; congruence.
Qed.

Lemma keeps_stuck {T A} (field : World → T) : keeps field (@stuck A).
Proof. intros w. reflexivity. Qed.

Lemma await_store_reads : keeps store_state await_store.
Proof.
  intros w. unfold await_store.
  destruct (head (w_faults w)) as [[]|]; reflexivity.
Qed.

Lemma alloc_reads h : keeps store_state (alloc h).
Proof. intros w. reflexivity. Qed.

Lemma cache_get_reads key : keeps store_state (cache.get key).
Proof.
  intros w. unfold cache.get. destruct (w_cache w !! key) as [e|]; [|reflexivity].
  destruct (cache.live (w_now w) e); reflexivity.
Qed.

Lemma cache_set_reads key p : keeps store_state (cache.set key p).
Proof. intros w. reflexivity. Qed.

Ltac reads_step :=
  first
    [ apply await_store_reads | apply alloc_reads | apply cache_get_reads
    | apply cache_set_reads | apply keeps_stuck
    | apply keeps_promise_all
    | keeps_step ].

Ltac reads_all :=
  apply keeps_try_catch;
  unfold Item.findById, Item.find, Item.find_limit_sort, Shop.findById,
    Shop.find_city, castObjectId, send, message, hydrate_item;
  repeat reads_step.

(** X1.  The four read handlers never write to the store: whatever the
    request, the cache, the clock and the answers of the store are, the
    items and the shops after [getItemById], [getItemByCity],
    [getItemsByShop] and [searchItems] are the ones before. *)
Theorem reads_never_write req w :
  store_state (getItemById req w).2 = store_state w ∧
  store_state (getItemByCity req w).2 = store_state w ∧
  store_state (getItemsByShop req w).2 = store_state w ∧
  store_state (searchItems req w).2 = store_state w.
Proof. repeat split; reads_all. Qed.

Lemma fmap_replace_first {A B} (g : A → B) (p : A → bool) x y l :
  List.find p l = Some y → g x = g y →
  g <$> replace_first p x l = g <$> l.
Proof.
  induction l as [|a l IH]; simpl; [discriminate|].
  destruct (p a); intros H Hg.
  - injection H as ->. cbn. rewrite Hg. reflexivity.
  - cbn. rewrite IH by assumption. reflexivity.
Qed.

Lemma await_store_listing : keeps listing await_store.
Proof.
  intros w. unfold await_store.
  destruct (head (w_faults w)) as [[]|]; reflexivity.
Qed.

Lemma alloc_listing h : keeps listing (alloc h).
Proof. intros w. reflexivity. Qed.

Lemma alloc_all_listing hs : keeps listing (alloc_all hs).
Proof. intros w. rewrite alloc_all_run. reflexivity. Qed.

Lemma upload_listing path : keeps listing (uploadOnCloudinary path).
Proof.
  intros w. unfold uploadOnCloudinary. destruct (w_upload w path); reflexivity.
Qed.

Lemma findByIdAndUpdate_listing s n c f p i :
  keeps listing (Item.findByIdAndUpdate s n c f p i).
Proof.
  unfold Item.findByIdAndUpdate, castObjectId.
  apply keeps_bind; [destruct (parseObjectId s); [apply keeps_ret|apply keeps_throw]|intros id].
  apply keeps_bind; [apply await_store_listing|intros []].
  intros w. rewrite bind_run. cbn [world].
  destruct (List.find (has_id id) (w_items w)) as [it|] eqn:E; [|reflexivity].
  rewrite bind_run. cbn [update]. rewrite bind_run, hydrate_item_run.
  cbn [snd fst mret M_ret]. unfold listing.
  cbn [w_items w_shops with_items with_heap].
  erewrite fmap_replace_first; [reflexivity|exact E|reflexivity].
Qed.

(** X2.  An edit has no way to the id, the rating or the shop of an item,
    nor to a shop: whatever the request and the store are, the items after
    [editItem] have, one by one, the ids, ratings and shops of the items
    before, and the shops are the same. *)
Theorem editItem_listing req w : listing (editItem req w).2 = listing w.
Proof.
  apply keeps_try_catch.
  unfold upload_file, Shop.findOne, Shop.populate_items, castObjectId, send,
    message, hydrate_shop.
  repeat first
    [ apply findByIdAndUpdate_listing | apply await_store_listing
    | apply alloc_listing | apply alloc_all_listing | apply upload_listing
    | keeps_step ].
Qed.

Lemma findById_some s w d w1 :
  Item.findById s w = (Ret (Some d), w1) →
  List.find (has_id (ohex (i_id d))) (w_items w1) = Some (item_values d).
Proof.
  unfold Item.findById, castObjectId. rewrite bind_run.
  destruct (parseObjectId s) as [id|]; [|discriminate].
  cbn [mret M_ret]. rewrite bind_run. unfold await_store.
  destruct (head (w_faults w)) as [[]|]; try discriminate.
  all: rewrite bind_run; cbn [world];
    change (w_items (served w)) with (w_items w);
    destruct (List.find (has_id id) (w_items w)) as [it|] eqn:E;
      [|discriminate];
    rewrite bind_run, hydrate_item_run; cbn [mret M_ret];
    intros H; injection H as <- <-;
    destruct (find_has_id _ _ _ E) as [<- _];
    cbn [w_items with_heap served with_faults hydrated_item i_id ohex];
    rewrite E; destruct it; reflexivity.
Qed.

Lemma findById_details s : keeps details (Item.findById s).
Proof.
  unfold Item.findById, castObjectId, hydrate_item.
  repeat first
    [ keeps_step
    | intros w; unfold await_store;
      destruct (head (w_faults w)) as [[]|]; reflexivity
    | intros w; reflexivity ].
Qed.

Lemma save_details d w :
  (∀ it, List.find (has_id (ohex (i_id d))) (w_items w) = Some it →
         unrated (item_values d) = unrated it) →
  details (Item.save d w).2 = details w.
Proof.
  intros H. unfold Item.save. rewrite bind_run. unfold await_store.
  destruct (head (w_faults w)) as [[]|]; try reflexivity.
  all: rewrite bind_run; cbn [world];
    change (w_items (served w)) with (w_items w);
    destruct (List.find (has_id (ohex (i_id d))) (w_items w)) as [it|] eqn:E;
      [|reflexivity];
    unfold details; cbn [update snd w_items w_shops with_items served with_faults];
    erewrite fmap_replace_first; [reflexivity|exact E|];
    rewrite <- (H it eq_refl); reflexivity.
Qed.

(** X3.  A rating writes the rating of an item and nothing else: but for
    the ratings and the times of the last write, the items after [rating]
    are the items before, and the shops are the same. *)
Theorem rating_details req w : details (rating req w).2 = details w.
Proof.
  unfold rating, try_catch.
  destruct (body_itemId req) as [itemId|]; [|reflexivity].
  destruct (body_rating req) as [r|]; [|reflexivity].
  destruct (bool_decide (itemId = "") || num_falsy r); [reflexivity|].
  destruct ((r <? 1)%float || (5 <? r)%float); [reflexivity|].
  rewrite bind_run. pose proof (findById_details itemId w) as Hf.
  destruct (Item.findById itemId w) as [[[d|]|e|] w1] eqn:E;
    cbn [snd] in Hf; try exact Hf.
  apply findById_some in E.
  rewrite bind_run.
  match goal with |- context [Item.save ?x w1] =>
    pose proof (save_details x w1) as Hs;
    destruct (Item.save x w1) as [[[]|e|] w2]
  end; cbn [snd] in *; cbn [fst snd message send mret M_ret];
    (rewrite Hs; [exact Hf|]);
    intros it Hit; cbn [assign_rating i_id] in Hit; rewrite E in Hit;
    injection Hit as <-; reflexivity.
Qed.

(** ** The item handlers, answer by answer *)

Lemma findByIdAndUpdate_run req image id n w :
  parseObjectId (params_itemId req) = Some id → store_ok (S n) w = true →
  Item.findByIdAndUpdate (params_itemId req) (body_name req)
      (body_category req) (body_foodType req) (body_price req) image w =
    match List.find (has_id id) (w_items w) with
    | Some it =>
        (Ret (Some (hydrated_item (w_heap w) (edited it req image (w_now w)))),
         with_heap (S (S (w_heap w)))
           (with_items (replace_first (has_id id) (edited it req image (w_now w)))
              (served w)))
    | None => (Ret None, served w)
    end.
Proof.
  intros Hs Hok. unfold Item.findByIdAndUpdate.
  rewrite bind_run, (castObjectId_run _ _ _ Hs).
  rewrite bind_run. destruct (await_store_ok _ _ Hok) as [-> _].
  rewrite bind_run. cbn [world].
  change (w_items (served w)) with (w_items w).
  destruct (List.find (has_id id) (w_items w)); reflexivity.
Qed.

Lemma create_run req image shop n w :
  store_ok (S n) w = true →
  Item.create (body_name req) (body_category req) (body_foodType req)
      (body_price req) image shop w =
    (Ret (hydrated_item (w_heap w)
            (created (hex 24 (w_next_oid w) "") req image (ohex shop) (w_now w))),
     with_heap (S (S (w_heap w)))
       (with_items (λ l, app l [created (hex 24 (w_next_oid w) "") req image
                                   (ohex shop) (w_now w)])
          (served (with_next_oid (N.succ (w_next_oid w)) w)))).
Proof.
  intros Hok. unfold Item.create. rewrite bind_run. cbn [new_ObjectId].
  rewrite bind_run.
  destruct (await_store_ok n (with_next_oid (N.succ (w_next_oid w)) w)) as [-> _];
    [exact Hok|].
  reflexivity.
Qed.

Lemma upload_file_world req w o w' :
  upload_file req w = (o, w') → w' = w.
Proof.
  unfold upload_file. destruct (file req) as [path|]; [|intros H; injection H; auto].
  rewrite bind_run. unfold uploadOnCloudinary.
  destruct (w_upload w path); intros H; injection H; auto.
Qed.

(** X4.  The four handlers that take the id of an item answer an id that
    is well formed and is the id of no stored item with 400 and
    "item not found", and leave the items, the shops and the cache as they
    were: [editItem], [getItemById] and [deleteItem] for the id of the
    route, [rating] for the id of the body. *)
Theorem item_not_found_all :
  (∀ req w id image,
     upload_file req w = (Ret image, w) →
     parseObjectId (params_itemId req) = Some id →
     List.find (has_id id) (w_items w) = None →
     store_ok 1 w = true →
     ∃ w', editItem req w
             = (Replied {| status := 400; body := BMessage "item not found" |}, w') ∧
           store_state w' = store_state w ∧ w_cache w' = w_cache w) ∧
  (∀ req w id,
     parseObjectId (params_itemId req) = Some id →
     List.find (has_id id) (w_items w) = None →
     store_ok 1 w = true →
     ∃ w', getItemById req w
             = (Replied {| status := 400; body := BMessage "item not found" |}, w') ∧
           store_state w' = store_state w ∧ w_cache w' = w_cache w) ∧
  (∀ req w id,
     parseObjectId (params_itemId req) = Some id →
     List.find (has_id id) (w_items w) = None →
     store_ok 1 w = true →
     ∃ w', deleteItem req w
             = (Replied {| status := 400; body := BMessage "item not found" |}, w') ∧
           store_state w' = store_state w ∧ w_cache w' = w_cache w) ∧
  (∀ req w itemId r id,
     body_itemId req = Some itemId → body_rating req = Some r →
     (1 <=? r)%float = true → (r <=? 5)%float = true →
     parseObjectId itemId = Some id →
     List.find (has_id id) (w_items w) = None →
     store_ok 1 w = true →
     ∃ w', rating req w
             = (Replied {| status := 400; body := BMessage "item not found" |}, w') ∧
           store_state w' = store_state w ∧ w_cache w' = w_cache w).
Proof.
  split; [|split; [|split]].
  - intros req w id image Hu Hp Hf Hok. exists (served w).
    split; [|split; reflexivity].
    unfold editItem, try_catch. rewrite bind_run, Hu. cbv beta iota.
    rewrite bind_run, (findByIdAndUpdate_run _ _ _ 0 _ Hp Hok), Hf.
    reflexivity.
  - intros req w id Hp Hf Hok. exists (served w).
    split; [|split; reflexivity].
    unfold getItemById, try_catch.
    rewrite bind_run, (findById_run _ _ 0 _ Hp Hok), Hf. reflexivity.
  - intros req w id Hp Hf Hok. exists (served w).
    split; [|split; reflexivity].
    unfold deleteItem, try_catch.
    rewrite bind_run, (findByIdAndDelete_run _ _ 0 _ Hp Hok), Hf. reflexivity.
  - intros req w itemId r id Hid Hr H1 H5 Hp Hf Hok. exists (served w).
    split; [|split; reflexivity].
    unfold rating, try_catch. rewrite Hid, Hr.
    rewrite bool_decide_eq_false_2 by (eapply parse_nonempty; eassumption).
    rewrite (ge_one_truthy _ H1). cbn [orb].
    rewrite (leb_not_ltb _ _ H1), (leb_not_ltb _ _ H5). cbn [orb].
    rewrite bind_run, (findById_run _ _ 0 _ Hp Hok), Hf. reflexivity.
Qed.

Lemma item_not_found_all_witness :
  let missing := Replied {| status := 400; body := BMessage "item not found" |} in
  (editItem (item_request owner_id absent_id) pune_world).1 = missing ∧
  (getItemById (item_request owner_id absent_id) pune_world).1 = missing ∧
  (deleteItem (item_request owner_id absent_id) pune_world).1 = missing ∧
  (rating (rating_request absent_id 4%float) pune_world).1 = missing.
Proof.
  destruct item_not_found_all as (He & Hg & Hd & Hr).
  destruct (He (item_request owner_id absent_id) pune_world absent_id None)
    as (w1 & E1 & _); [reflexivity..|].
  destruct (Hg (item_request owner_id absent_id) pune_world absent_id)
    as (w2 & E2 & _); [reflexivity..|].
  destruct (Hd (item_request owner_id absent_id) pune_world absent_id)
    as (w3 & E3 & _); [reflexivity..|].
  destruct (Hr (rating_request absent_id 4%float) pune_world absent_id 4%float
              absent_id) as (w4 & E4 & _); [reflexivity..|].
  rewrite E1, E2, E3, E4. repeat split.
Defined.

Lemma populate_owner_run d n w :
  store_ok (S n) w = true → Shop.populate_owner d w = (Ret (), served w).
Proof. intros Hok. apply (await_store_ok _ _ Hok). Qed.

(** The whole run of an add by the owner of a shop. *)
Lemma addItem_run req w image uid sh :
  upload_file req w = (Ret image, w) →
  parseObjectId (userId req) = Some uid →
  List.find (λ s, bool_decide (s_owner s = uid)) (w_shops w) = Some sh →
  List.find (shop_has_id (s_id sh)) (w_shops w) = Some sh →
  store_ok 5 w = true →
  let new := created (hex 24 (w_next_oid w) "") req image (s_id sh) (w_now w) in
  ∃ shop w',
    addItem req w = (Replied {| status := 201; body := BShop (Some shop) |}, w') ∧
    w_items w' = app (w_items w) [new] ∧
    w_shops w' = replace_first (shop_has_id (s_id sh)) (listed sh (i_id new))
                   (w_shops w) ∧
    w_faults w' = w_faults (Nat.iter 5 served w) ∧
    ps_id shop = s_id sh ∧
    new ∈ ps_items shop.
Proof.
  intros Hu Hp Hs Hsid Hok new.
  pose proof (store_ok_served _ _ Hok) as Hok1.
  pose proof (store_ok_served _ _ Hok1) as Hok2.
  pose proof (store_ok_served _ _ Hok2) as Hok3.
  pose proof (store_ok_served _ _ Hok3) as Hok4.
  eexists _, _. split; [|split; [|split; [|split; [|split]]]].
  - unfold addItem, try_catch. rewrite bind_run, Hu. cbv beta iota.
    rewrite bind_run, (findOne_run _ _ 4 _ Hp Hok), Hs.
    rewrite bind_run. erewrite (create_run _ _ _ 3); [|exact Hok1].
    rewrite bind_run. erewrite (shop_save_run _ sh 2); [|exact Hok2|exact Hsid].
    rewrite bind_run. erewrite (populate_owner_run _ 1); [|exact Hok3].
    rewrite bind_run. erewrite (populate_items_run _ 0); [|exact Hok4].
    reflexivity.
  - reflexivity.
  - cbn. unfold shop_values, listed. cbn. rewrite fmap_app, allocated_values.
    reflexivity.
  - reflexivity.
  - reflexivity.
  - cbn [Shop.populated ps_items]. apply sort_by_elem.
    apply list_elem_of_In, List.filter_In. split.
    + cbn. apply in_or_app. right. left. reflexivity.
    + apply bool_decide_eq_true. cbn. rewrite fmap_app.
      apply elem_of_app. right. cbn. apply list_elem_of_here.
Qed.

(** X5.  An add by the owner of a shop, with a store that answers, is
    answered 201 with that shop, populated; the store has one item more,
    the last, made of the fields of the request with the rating 0/0 and
    the id of the shop; the stored shop lists the id of the new item at the
    end of its list, and the new item is among the items of the answer. *)
Theorem addItem_links req w image uid sh :
  upload_file req w = (Ret image, w) →
  parseObjectId (userId req) = Some uid →
  List.find (λ s, bool_decide (s_owner s = uid)) (w_shops w) = Some sh →
  List.find (shop_has_id (s_id sh)) (w_shops w) = Some sh →
  store_ok 5 w = true →
  let new := created (hex 24 (w_next_oid w) "") req image (s_id sh) (w_now w) in
  ∃ shop w',
    addItem req w = (Replied {| status := 201; body := BShop (Some shop) |}, w') ∧
    w_items w' = app (w_items w) [new] ∧
    w_shops w' = replace_first (shop_has_id (s_id sh)) (listed sh (i_id new))
                   (w_shops w) ∧
    ps_id shop = s_id sh ∧
    new ∈ ps_items shop.
Proof.
  intros Hu Hp Hs Hsid Hok new.
  destruct (addItem_run req w image uid sh Hu Hp Hs Hsid Hok)
    as (shop & w' & E & Hi & Hsh & _ & Hid & Hin).
  exists shop, w'. auto.
Qed.

Lemma addItem_links_witness :
  ∃ shop w',
    addItem (menu_request owner_id "" "Momo" "Snacks" 60%float) pune_world
      = (Replied {| status := 201; body := BShop (Some shop) |}, w') ∧
    i_id <$> w_items w' = [pizza_id; burger_id; fries_id; momo_id] ∧
    s_items <$> w_shops w' = [[pizza_id; burger_id; fries_id; momo_id]] ∧
    momo_id ∈ i_id <$> ps_items shop.
Proof.
  destruct (addItem_links (menu_request owner_id "" "Momo" "Snacks" 60%float)
              pune_world None owner_id kitchen)
    as (shop & w' & E & Hi & Hs & _ & Hin); [reflexivity..|].
  exists shop, w'. split; [exact E|]. rewrite Hi, Hs.
  split; [reflexivity|]. split; [reflexivity|].
  apply list_elem_of_fmap. eexists. split; [|exact Hin]. reflexivity.
Defined.

(** X6.  An add by a requester who owns no shop is answered 400 with
    "shop not found": no item is created, and the items, the shops and the
    cache are as they were. *)
Theorem addItem_no_shop req w image uid :
  upload_file req w = (Ret image, w) →
  parseObjectId (userId req) = Some uid →
  List.find (λ s, bool_decide (s_owner s = uid)) (w_shops w) = None →
  store_ok 1 w = true →
  ∃ w',
    addItem req w
      = (Replied {| status := 400; body := BMessage "shop not found" |}, w') ∧
    store_state w' = store_state w ∧ w_cache w' = w_cache w.
Proof.
  intros Hu Hp Hs Hok. exists (served w). split; [|split; reflexivity].
  unfold addItem, try_catch. rewrite bind_run, Hu. cbv beta iota.
  rewrite bind_run, (findOne_run _ _ 0 _ Hp Hok), Hs. reflexivity.
Qed.

Lemma addItem_no_shop_witness :
  ∃ w',
    addItem (menu_request guest_id "" "Momo" "Snacks" 60%float) pune_world
      = (Replied {| status := 400; body := BMessage "shop not found" |}, w') ∧
    store_state w' = store_state pune_world.
Proof.
  destruct (addItem_no_shop (menu_request guest_id "" "Momo" "Snacks" 60%float)
              pune_world None guest_id)
    as (w' & E & Hs & _); [reflexivity..|].
  exists w'. split; [exact E|exact Hs].
Defined.

Lemma await_store_rejects w :
  head (w_faults w) = Some true → await_store w = (Throw StoreError, served w).
Proof. unfold await_store. intros ->. reflexivity. Qed.

(** X7.  An add is two writes and no transaction: when the store answers
    the query of the shop and the creation of the item, and rejects the
    save of the shop, [addItem] answers 500, the new item is in the store,
    and no shop lists it. *)
Theorem addItem_save_rejected req w image uid sh :
  upload_file req w = (Ret image, w) →
  parseObjectId (userId req) = Some uid →
  List.find (λ s, bool_decide (s_owner s = uid)) (w_shops w) = Some sh →
  store_ok 2 w = true →
  w_faults w !! 2 = Some true →
  let new := created (hex 24 (w_next_oid w) "") req image (s_id sh) (w_now w) in
  ∃ w',
    addItem req w
      = (Replied {| status := 500;
                    body := BFailure "add item error " StoreError |}, w') ∧
    w_items w' = app (w_items w) [new] ∧
    w_shops w' = w_shops w.
Proof.
  intros Hu Hp Hs Hok H2 new.
  pose proof (store_ok_served _ _ Hok) as Hok1.
  eexists. split; [|split].
  - unfold addItem, try_catch. rewrite bind_run, Hu. cbv beta iota.
    rewrite bind_run, (findOne_run _ _ 1 _ Hp Hok), Hs.
    rewrite bind_run. erewrite (create_run _ _ _ 0); [|exact Hok1].
    rewrite bind_run. unfold Shop.save. rewrite bind_run.
    rewrite await_store_rejects; [reflexivity|].
    cbn. destruct (w_faults w) as [|a [|b [|c l]]]; try discriminate.
    cbn in H2. cbn. exact H2.
  - reflexivity.
  - reflexivity.
Qed.

Lemma addItem_save_rejected_witness :
  ∃ w',
    addItem (menu_request owner_id "" "Momo" "Snacks" 60%float) failing_world
      = (Replied {| status := 500;
                    body := BFailure "add item error " StoreError |}, w') ∧
    i_id <$> w_items w' = [pizza_id; burger_id; fries_id; momo_id] ∧
    s_items <$> w_shops w' = [[pizza_id; burger_id; fries_id]].
Proof.
  destruct (addItem_save_rejected
              (menu_request owner_id "" "Momo" "Snacks" 60%float)
              failing_world None owner_id kitchen)
    as (w' & E & Hi & Hs); [reflexivity..|].
  exists w'. split; [exact E|]. rewrite Hi, Hs. split; reflexivity.
Defined.



(** *** A new id is an id *)

Lemma hex_digit_ok m :
  (m < 16)%N →
  is_hex (hex_digit m) = true ∧ lower_ascii (hex_digit m) = hex_digit m.
Proof.
  intros H.
  assert (m = 0 ∨ m = 1 ∨ m = 2 ∨ m = 3 ∨ m = 4 ∨ m = 5 ∨ m = 6 ∨ m = 7 ∨
          m = 8 ∨ m = 9 ∨ m = 10 ∨ m = 11 ∨ m = 12 ∨ m = 13 ∨ m = 14 ∨
          m = 15)%N as Hm by lia.
  repeat destruct Hm as [->|Hm]; try subst m; split; reflexivity.
Qed.

Lemma hex_length k n acc :
  String.length (hex k n acc) = (k + String.length acc)%nat.
Proof.
  revert n acc. induction k as [|k IH]; intros n acc; [reflexivity|].
  cbn [hex]. rewrite IH. cbn [String.length]. lia.
Qed.

Lemma hex_is_hex k n acc :
  forallb is_hex (chars acc) = true →
  forallb is_hex (chars (hex k n acc)) = true.
Proof.
  revert n acc. induction k as [|k IH]; intros n acc H; [exact H|].
  cbn [hex]. apply IH. cbn [chars forallb].
  destruct (hex_digit_ok (n mod 16)%N) as [-> _].
  - apply N.mod_lt. discriminate.
  - exact H.
Qed.

Lemma hex_lower k n acc :
  toLowerCase acc = acc → toLowerCase (hex k n acc) = hex k n acc.
Proof.
  revert n acc. induction k as [|k IH]; intros n acc H; [exact H|].
  cbn [hex]. apply IH. cbn [toLowerCase].
  destruct (hex_digit_ok (n mod 16)%N) as [_ ->].
  - apply N.mod_lt. discriminate.
  - rewrite H. reflexivity.
Qed.

(** The ids that the generator makes are cast to themselves. *)
Lemma parse_new_id n : parseObjectId (hex 24 n "") = Some (hex 24 n "").
Proof.
  unfold parseObjectId.
  rewrite bool_decide_eq_true_2 by (rewrite hex_length; reflexivity).
  rewrite hex_is_hex by reflexivity. cbn [andb].
  rewrite hex_lower by reflexivity. reflexivity.
Qed.

Lemma find_snoc_fresh {A} (p : A → bool) l x :
  List.find p l = None → p x = true → List.find p (app l [x]) = Some x.
Proof.
  induction l as [|a l IH]; cbn [List.find app]; intros H Hx.
  - rewrite Hx. reflexivity.
  - destruct (p a); [discriminate|]. apply IH; assumption.
Qed.

Lemma hydrated_item_values h it : item_values (hydrated_item h it) = it.
Proof. destruct it. reflexivity. Qed.

(** X9.  What is added can be read.  After an add by the owner of a shop,
    [getItemById] for the id of the new item, an id that no stored item had,
    answers 200 with the item made of the fields of the request, the rating
    0/0 and the id of the shop. *)
Theorem addItem_then_getItemById req w image uid sh req' :
  upload_file req w = (Ret image, w) →
  parseObjectId (userId req) = Some uid →
  List.find (λ s, bool_decide (s_owner s = uid)) (w_shops w) = Some sh →
  List.find (shop_has_id (s_id sh)) (w_shops w) = Some sh →
  List.find (has_id (hex 24 (w_next_oid w) "")) (w_items w) = None →
  params_itemId req' = hex 24 (w_next_oid w) "" →
  store_ok 6 w = true →
  (getItemById req' (addItem req w).2).1
    = Replied {| status := 200;
                 body := BItem (created (hex 24 (w_next_oid w) "") req image
                                  (s_id sh) (w_now w)) |}.
Proof.
  intros Hu Hp Hs Hsid Hfresh Hid Hok.
  destruct (addItem_run req w image uid sh Hu Hp Hs Hsid
              (store_ok_weaken _ _ Hok))
    as (shop & w' & -> & Hi & _ & Hf & _). cbn [snd].
  assert (store_ok 1 w' = true) as Hok'.
  { rewrite (store_ok_faults 1 _ _ Hf). cbn [Nat.iter].
    do 5 apply store_ok_served. exact Hok. }
  unfold getItemById, try_catch. cbv zeta. rewrite bind_run, Hid.
  rewrite (findById_run _ _ 0 _ (parse_new_id _) Hok'), Hi.
  rewrite (find_snoc_fresh _ _ _ Hfresh)
    by (apply bool_decide_eq_true; reflexivity).
  cbn [send mret M_ret fst]. rewrite hydrated_item_values. reflexivity.
Qed.

Lemma addItem_then_getItemById_witness :
  (getItemById (item_request guest_id momo_id)
     (addItem (menu_request owner_id "" "Momo" "Snacks" 60%float) pune_world).2).1
    = Replied {| status := 200;
                 body := BItem (created momo_id
                                  (menu_request owner_id "" "Momo" "Snacks" 60%float)
                                  None shop_id 0) |}.
Proof.
  apply (addItem_then_getItemById
           (menu_request owner_id "" "Momo" "Snacks" 60%float)
           pune_world None owner_id kitchen (item_request guest_id momo_id));
    reflexivity.
Defined.

Lemma replace_first_same {A} (p : A → bool) x l :
  List.find p l = Some x → replace_first p x l = l.
Proof.
  induction l as [|a l IH]; cbn [List.find replace_first]; [discriminate|].
  destruct (p a).
  - intros H. injection H as ->. reflexivity.
  - intros H. rewrite (IH H). reflexivity.
Qed.

(** X10.  A delete by the owner of a shop, with a store that answers, is
    answered 200 with the shop, and the first item of that id is gone from
    the items; every stored shop is as it was, the list of ids of the
    owner's shop too: the filter of the handler compares objects and takes
    nothing out of it. *)
Theorem deleteItem_shops_unchanged req w id it uid sh :
  parseObjectId (params_itemId req) = Some id →
  List.find (has_id id) (w_items w) = Some it →
  parseObjectId (userId req) = Some uid →
  List.find (λ s, bool_decide (s_owner s = uid)) (w_shops w) = Some sh →
  List.find (shop_has_id (s_id sh)) (w_shops w) = Some sh →
  store_ok 4 w = true →
  ∃ shop w',
    deleteItem req w
      = (Replied {| status := 200; body := BShop (Some shop) |}, w') ∧
    w_items w' = remove_first (has_id id) (w_items w) ∧
    w_shops w' = w_shops w ∧
    ps_id shop = s_id sh.
Proof.
  intros Hp Hf Hu Hs Hsid Hok.
  pose proof (store_ok_served _ _ Hok) as Hok1.
  pose proof (store_ok_served _ _ Hok1) as Hok2.
  pose proof (store_ok_served _ _ Hok2) as Hok3.
  eexists _, _. split; [|split; [|split]].
  - unfold deleteItem, try_catch. rewrite bind_run.
    rewrite (findByIdAndDelete_run _ _ 3 _ Hp Hok), Hf.
    rewrite bind_run. erewrite (findOne_run _ _ 2 _ Hu); [|exact Hok1].
    cbn [w_shops with_heap with_items served with_faults]. rewrite Hs.
    cbn [w_heap with_heap with_items served with_faults].
    cbn [hydrated_shop hydrated_item s_items i_id].
    rewrite filter_strict_ne_allocated by (cbn; lia).
    rewrite bind_run. erewrite (shop_save_run _ sh 1); [| exact Hok2 | exact Hsid].
    rewrite bind_run. erewrite (populate_items_run _ 0); [|exact Hok3].
    reflexivity.
  - reflexivity.
  - cbn. unfold shop_values. cbn. rewrite allocated_values.
    rewrite <- (replace_first_same _ _ _ Hsid) at 2.
    destruct sh; reflexivity.
  - reflexivity.
Qed.

Lemma deleteItem_shops_unchanged_witness :
  ∃ shop w',
    deleteItem (item_request owner_id pizza_id) pune_world
      = (Replied {| status := 200; body := BShop (Some shop) |}, w') ∧
    i_id <$> w_items w' = [burger_id; fries_id] ∧
    s_items <$> w_shops w' = [[pizza_id; burger_id; fries_id]].
Proof.
  destruct (deleteItem_shops_unchanged (item_request owner_id pizza_id)
              pune_world pizza_id
              (menu_item pizza_id "Pizza" "Snacks"
                 {| average := 3%float; count := 2%float |})
              owner_id kitchen)
    as (shop & w' & E & Hi & Hs & _); [reflexivity..|].
  exists shop, w'. split; [exact E|]. rewrite Hi, Hs. split; reflexivity.
Defined.

(** ** The items of a shop and of a city *)

Lemma shop_findById_run s id n w :
  parseObjectId s = Some id → store_ok (S n) w = true →
  Shop.findById s w
    = (Ret (shopProjection <$> List.find (shop_has_id id) (w_shops w)), served w).
Proof.
  intros Hs Hok. unfold Shop.findById.
  rewrite bind_run, (castObjectId_run _ _ _ Hs).
  rewrite bind_run. destruct (await_store_ok _ _ Hok) as [-> _]. reflexivity.
Qed.

Lemma find_run f n w :
  store_ok (S n) w = true →
  Item.find f w = (Ret (itemProjection <$> List.filter f (w_items w)), served w).
Proof.
  intros Hok. unfold Item.find. rewrite bind_run.
  destruct (await_store_ok _ _ Hok) as [-> _]. reflexivity.
Qed.

(** X11.  The items of a shop, on a miss of the cache and with a store
    that answers.  For the id of a stored shop, [getItemsByShop] answers 200
    with the projection of the shop and of every stored item of that shop,
    in the order of the store, and sets that payload under the key of the
    shop for 300 seconds; for a well-formed id of no shop it answers 404
    with "shop not found" and sets nothing under the key. *)
Theorem getItemsByShop_miss req w id :
  parseObjectId (params_shopId req) = Some id →
  (cache.get (shop_cacheKey (params_shopId req)) w).1 = Ret None →
  store_ok 2 w = true →
  let items :=
    itemProjection <$>
      List.filter (λ it, bool_decide (i_shop it = id)) (w_items w) in
  match List.find (shop_has_id id) (w_shops w) with
  | Some sh =>
      ∃ w',
        getItemsByShop req w = (success (PShop (shopProjection sh) items), w') ∧
        w_cache w' !! shop_cacheKey (params_shopId req)
          = Some {| ce_value := PShop (shopProjection sh) items;
                    ce_expires := w_now w + 300000 |}
  | None =>
      ∃ w',
        getItemsByShop req w
          = (Replied {| status := 404; body := BMessage "shop not found" |}, w') ∧
        w_cache w' !! shop_cacheKey (params_shopId req) = None
  end.
Proof.
  intros Hp Hmiss Hok items.
  destruct (cache_get_miss _ _ Hmiss) as (w1 & Hget & Hi & Hs & Hf).
  rewrite <- (store_ok_faults 2 w w1 Hf) in Hok.
  pose proof (store_ok_served _ _ Hok) as Hok1.
  assert (w_now w1 = w_now w ∧
          w_cache w1 !! shop_cacheKey (params_shopId req) = None) as [Hnow Hnone].
  { revert Hget. unfold cache.get.
    destruct (w_cache w !! _) as [e|] eqn:He.
    - destruct (cache.live (w_now w) e); [discriminate|].
      intros H. injection H as <-. split; [reflexivity|]. cbn.
      apply lookup_delete_eq.
    - intros H. injection H as <-. split; [reflexivity|exact He]. }
  assert (∀ text,
    try_catch text
      (cached ← cache.get (shop_cacheKey (params_shopId req));
       match cached with
       | Some p => send 200 (BPayload p)
       | None =>
           '(shop, items) ← promise_all (Shop.findById (params_shopId req))
              (id ← castObjectId (params_shopId req);
               Item.find (λ it, bool_decide (i_shop it = id)));
           match shop with
           | None => message 404 "shop not found"
           | Some shop =>
               let response := PShop shop items in
               cache.set (shop_cacheKey (params_shopId req)) response;;
               send 200 (BPayload response)
           end
       end) w
    = match List.find (shop_has_id id) (w_shops w) with
      | Some sh =>
          (success (PShop (shopProjection sh) items),
           with_cache (insert (shop_cacheKey (params_shopId req))
                         {| ce_value := PShop (shopProjection sh) items;
                            ce_expires := w_now w + 300000 |})
             (served (served w1)))
      | None =>
          (Replied {| status := 404; body := BMessage "shop not found" |},
           served (served w1))
      end) as Hrun.
  { intros text. unfold try_catch. rewrite bind_run, Hget. rewrite bind_run.
    unfold promise_all. rewrite (shop_findById_run _ _ 1 _ Hp Hok).
    rewrite bind_run, (castObjectId_run _ _ _ Hp).
    rewrite (find_run _ 0 _ Hok1).
    change (w_items (served w1)) with (w_items w1). rewrite Hi, Hs.
    fold items.
    destruct (List.find (shop_has_id id) (w_shops w)) as [sh|];
      cbn [fmap option_fmap option_map].
    - cbv zeta. rewrite bind_run. unfold cache.set.
      change (w_now (served (served w1))) with (w_now w1). rewrite Hnow.
      reflexivity.
    - reflexivity. }
  unfold getItemsByShop. cbv zeta. rewrite Hrun.
  destruct (List.find (shop_has_id id) (w_shops w)) as [sh|].
  - eexists. split; [reflexivity|]. cbn. apply lookup_insert_eq.
  - eexists. split; [reflexivity|]. exact Hnone.
Qed.

Lemma getItemsByShop_miss_witness :
  (∃ w',
     getItemsByShop (shop_request shop_id) pune_world
       = (success (PShop (shopProjection kitchen)
                     (itemProjection <$> w_items pune_world)), w') ∧
     is_Some (w_cache w' !! shop_cacheKey shop_id)) ∧
  (∃ w',
     getItemsByShop (shop_request absent_id) pune_world
       = (Replied {| status := 404; body := BMessage "shop not found" |}, w') ∧
     w_cache w' !! shop_cacheKey absent_id = None).
Proof.
  split.
  - pose proof (getItemsByShop_miss (shop_request shop_id) pune_world shop_id
                  eq_refl eq_refl eq_refl) as H.
    cbv zeta in H.
    change (List.find (shop_has_id shop_id) (w_shops pune_world))
      with (Some kitchen) in H.
    destruct H as (w' & E & Hc). exists w'. split; [exact E|].
    cbn [shop_request params_shopId] in Hc. rewrite Hc. eauto.
  - pose proof (getItemsByShop_miss (shop_request absent_id) pune_world absent_id
                  eq_refl eq_refl eq_refl) as H.
    cbv zeta in H.
    change (List.find (shop_has_id absent_id) (w_shops pune_world))
      with (@None (ShopDoc oid)) in H.
    exact H.
Defined.

Lemma fromEntries_snoc {V} (l : list (string * V)) k v :
  fromEntries (app l [(k, v)]) = <[k := v]> (fromEntries l).
Proof. unfold fromEntries. rewrite foldl_app. reflexivity. Qed.

Lemma fromEntries_lookup {V} (l : list (string * V)) k v :
  fromEntries l !! k = Some v → (k, v) ∈ l.
Proof.
  induction l as [|[k' v'] l IH] using rev_ind; [discriminate|].
  rewrite fromEntries_snoc. intros H.
  apply lookup_insert_Some in H as [[<- <-]|[_ H]].
  - apply elem_of_app. right. apply list_elem_of_here.
  - apply elem_of_app. left. apply IH, H.
Qed.

Lemma fromEntries_is_Some {V} (l : list (string * V)) k :
  k ∈ l.*1 → is_Some (fromEntries l !! k).
Proof.
  induction l as [|[k' v'] l IH] using rev_ind; [intros H; inversion H|].
  rewrite fromEntries_snoc, fmap_app. intros H.
  destruct (decide (k' = k)) as [->|Hne].
  - rewrite lookup_insert_eq. eauto.
  - rewrite lookup_insert_ne by assumption. apply IH.
    apply elem_of_app in H as [H|H]; [exact H|].
    cbn in H. apply list_elem_of_singleton in H. congruence.
Qed.

(** What a query of the shops of a city answers is made of shops of the
    store. *)
Lemma find_city_inv {A} city (sel : ShopDoc oid → A) w shops w' :
  Shop.find_city city sel w = (Ret shops, w') →
  ∃ l, shops = sel <$> l ∧ (∀ s, s ∈ l → s ∈ w_shops w).
Proof.
  unfold Shop.find_city. destruct (compile _) as [atoms|]; [|discriminate].
  rewrite bind_run. unfold await_store.
  destruct (head (w_faults w)) as [[]|]; try discriminate.
  all: rewrite bind_run; cbn [world mret M_ret];
    destruct (plain_cities _); [|discriminate];
    intros H; injection H as <- _;
    eexists; split; [reflexivity|];
    intros s Hs; apply list_elem_of_In, List.filter_In in Hs as [Hs _];
    apply list_elem_of_In; exact Hs.
Qed.

Lemma find_limit_sort_inv d f n w items w' :
  Item.find_limit_sort d f n w = (Ret items, w') →
  items = take n (sort_by by_rating_desc
                    (itemProjection <$> List.filter f (w_items w))).
Proof.
  unfold Item.find_limit_sort. rewrite bind_run. unfold await_store.
  destruct (head (w_faults w)) as [[]|]; try discriminate.
  all: rewrite bind_run; cbn [world mret M_ret];
    destruct (forallb d _); [|discriminate];
    intros H; injection H as <- _; reflexivity.
Qed.

Lemma cache_get_shops key w o w' :
  cache.get key w = (o, w') → w_shops w' = w_shops w.
Proof.
  unfold cache.get. destruct (w_cache w !! key) as [e|].
  - destruct (cache.live (w_now w) e); intros H; injection H as _ <-; reflexivity.
  - intros H; injection H as _ <-; reflexivity.
Qed.

Lemma fmap_ws_item (f : ItemView → option ShopInfo) (items : list ItemView) :
  ws_item <$> ((λ it, {| ws_item := it; shopInfo := f it |}) <$> items) = items.
Proof.
  induction items as [|a l IH]; [reflexivity|]. cbn. rewrite IH. reflexivity.
Qed.

(** X12.  The items of a city, on a miss of the cache.  An answer 200 of
    [getItemByCity] carries at most 50 items, in descending order of their
    average rating, and every one of them with the name and the image of a
    stored shop that has the id of its shop: the join with the shops of the
    city never falls back to [null]. *)
Theorem getItemByCity_joins req city w p w' :
  params_city req = Some city →
  (cache.get (city_cacheKey city) w).1 = Ret None →
  getItemByCity req w = (success p, w') →
  ∃ items,
    p = PCity items ∧
    (length items ≤ 50)%nat ∧
    sorted_by_rating (ws_item <$> items) ∧
    ∀ x, x ∈ items →
      ∃ s, s ∈ w_shops w ∧ s_id s = v_shop (ws_item x) ∧
           shopInfo x = Some {| si_name := s_name s; si_image := s_image s |}.
Proof.
  intros Hc Hmiss. unfold getItemByCity, try_catch. rewrite Hc.
  cbn [default from_option id].
  destruct (absent (Some city)); [discriminate|].
  destruct (negb (ascii_only city)); [discriminate|].
  rewrite bind_run.
  destruct (cache.get (city_cacheKey city) w) as [[[q|]|e|] w2] eqn:Eg;
    try discriminate.
  pose proof (cache_get_shops _ _ _ _ Eg) as Hsh.
  rewrite bind_run.
  destruct (Shop.find_city city select_id_name_image w2)
    as [[shops|e|] w3] eqn:E3; try discriminate.
  apply find_city_inv in E3 as (l & -> & Hl).
  destruct (bool_decide _); [discriminate|].
  rewrite bind_run.
  destruct (Item.find_limit_sort _ _ 50 w3) as [[items|e|] w4] eqn:E4;
    try discriminate.
  apply find_limit_sort_inv in E4.
  rewrite bind_run. unfold cache.set, send, mret, M_ret, success.
  intros H. injection H as <- _.
  eexists. split; [reflexivity|]. split; [|split].
  - rewrite length_fmap, E4, length_take. lia.
  - rewrite fmap_ws_item, E4.
    apply descending_sorted, descending_take, descending_sort.
  - intros x Hx. apply list_elem_of_fmap in Hx as (it & -> & Hit).
    cbn [ws_item shopInfo]. rewrite E4 in Hit.
    apply elem_of_take in Hit as (i & Hit & _).
    apply list_elem_of_lookup_2 in Hit. apply sort_by_elem in Hit.
    apply list_elem_of_fmap in Hit as (d & -> & Hd).
    apply list_elem_of_In, List.filter_In in Hd as [_ Hd].
    apply bool_decide_eq_true in Hd. cbn [itemProjection v_shop].
    rewrite <- !list_fmap_compose in *.
    match goal with |- context [fromEntries ?es] =>
      destruct (fromEntries_is_Some es (i_shop d)) as [info Hinfo]
    end.
    { rewrite <- list_fmap_compose. exact Hd. }
    apply fromEntries_lookup in Hinfo as Hin.
    apply list_elem_of_fmap in Hin as (s & Hs & Hsl).
    cbn in Hs. injection Hs as Hid ->.
    exists s. split; [rewrite <- Hsh; apply Hl, Hsl|].
    split; [symmetry; exact Hid|exact Hinfo].
Qed.

Lemma getItemByCity_joins_witness :
  ∃ items,
    (getItemByCity (city_request "Pune") pune_world).1 = success (PCity items) ∧
    length items = 3%nat ∧
    ∀ x, x ∈ items →
         shopInfo x = Some {| si_name := "Vingo Kitchen"; si_image := "kitchen.png" |}.
Proof.
  destruct (getItemByCity (city_request "Pune") pune_world) as [r w1] eqn:E.
  assert (r = success pune_menu) as ->.
  { change r with (r, w1).1. rewrite <- E. reflexivity. }
  destruct (getItemByCity_joins (city_request "Pune") "Pune" pune_world
              pune_menu w1 eq_refl eq_refl E)
    as (items & Hp & _ & _ & Hall).
  injection Hp as <-. eexists. split; [reflexivity|]. split; [reflexivity|].
  intros x Hx. destruct (Hall x Hx) as (s & Hs & _ & ->).
  apply list_elem_of_singleton in Hs as ->. reflexivity.
Defined.

(** ** What a city and a search find *)

Lemma find_city_run {A} city (sel : ShopDoc oid → A) n w :
  literal city = true → store_ok (S n) w = true →
  plain_cities (w_shops w) = true →
  Shop.find_city city sel w = (Ret (sel <$> city_shops city w), served w).
Proof.
  intros L Hok Hp. rewrite (find_city_literal _ _ _ L), Hp.
  destruct (await_store_ok _ _ Hok) as [Haw _]. unfold await_store in Haw.
  destruct (head (w_faults w)) as [[]|]; [discriminate|reflexivity..].
Qed.

Lemma cache_get_miss_state key w :
  (cache.get key w).1 = Ret None →
  ∃ w', cache.get key w = (Ret None, w') ∧ w_items w' = w_items w ∧
        w_shops w' = w_shops w ∧ w_faults w' = w_faults w ∧
        w_now w' = w_now w ∧ w_cache w' !! key = None.
Proof.
  unfold cache.get. destruct (w_cache w !! key) as [e|] eqn:He.
  - destruct (cache.live (w_now w) e); [discriminate|].
    intros _. eexists. split; [reflexivity|]. repeat split.
    cbn. apply lookup_delete_eq.
  - intros _. eexists. split; [reflexivity|]. repeat split. exact He.
Qed.

Lemma searchItems_literal_run query city w :
  query ≠ "" → city ≠ "" → literal city = true → ascii_only query = true →
  (cache.get (search_cacheKey city query) w).1 = Ret None →
  store_ok 2 w = true →
  plain_cities (w_shops w) = true → plain_menu city w = true →
  ∃ w1,
    w_cache w1 !! search_cacheKey city query = None ∧ w_now w1 = w_now w ∧
    searchItems (search_request (QString query) (QString city)) w =
      if bool_decide (length (city_shops city w) = 0) then
        (Replied {| status := 404; body := BMessage "shops not found" |},
         served w1)
      else
        match compile query with
        | None => (OutOfModel, served w1)
        | Some atoms =>
            let items :=
              take 25 (sort_by by_rating_desc
                         (itemProjection <$>
                            List.filter
                              (search_filter (s_id <$> city_shops city w) atoms)
                              (w_items w))) in
            (success (PSearch items),
             (cache.set (search_cacheKey city query) (PSearch items)
                (served (served w1))).2)
        end.
Proof.
  intros Hq Hc Lc Aq Hmiss Hok Pc Pm.
  destruct (cache_get_miss_state _ _ Hmiss) as (w1 & Hget & Hi & Hs & Hf & Hn & Hk).
  rewrite <- (store_ok_faults 2 w w1 Hf) in Hok.
  pose proof (store_ok_served _ _ Hok) as Hok1.
  exists w1. split; [exact Hk|]. split; [exact Hn|].
  unfold searchItems, try_catch.
  cbn [search_request query_query query_city query_absent].
  rewrite !bool_decide_eq_false_2 by assumption. cbn [orb].
  rewrite (literal_ascii _ Lc), Aq. cbn [andb negb].
  rewrite bind_run, Hget.
  rewrite bind_run, (find_city_run _ _ 1 _ Lc Hok) by (rewrite Hs; exact Pc).
  unfold plain_menu in Pm. unfold city_shops in *. rewrite Hs.
  rewrite length_fmap.
  destruct (bool_decide (length _ = 0)); [reflexivity|].
  destruct (compile query) as [atoms|]; [|reflexivity].
  rewrite bind_run, (find_limit_sort_run _ _ _ 0 _ Hok1)
    by (change (w_items (served w1)) with (w_items w1); rewrite Hi; exact Pm).
  change (w_items (served w1)) with (w_items w1). rewrite Hi. reflexivity.
Qed.

Lemma take_all {A} (l : list A) n : (length l ≤ n)%nat → take n l = l.
Proof. intros H. apply take_ge. exact H. Qed.

Lemma sort_by_length {A} (before : A → A → bool) l :
  length (sort_by before l) = length l.
Proof.
  unfold sort_by. induction l as [|a l IH]; [reflexivity|]. simpl.
  rewrite <- IH. generalize (foldr (insert_by before) [] l). clear.
  intros l. induction l as [|b l IH]; [reflexivity|]. simpl.
  destruct (before a b); simpl; [reflexivity|]. rewrite IH. reflexivity.
Qed.

(** X13.  A search misses nothing.  For a query and a city that are not
    empty and are made of literal ASCII characters, on a miss of the cache,
    with a shop in the city and a store that answers, where the cities of
    the shops and the names and categories of the items of the shops of
    the city are plain texts: when at most 25 stored items of the shops of
    the city hold the query in their name or category, whatever the case
    of the letters, [searchItems] answers 200 with the projections of
    exactly those items. *)
Theorem search_finds_all query city w :
  query ≠ "" → city ≠ "" → literal query = true → literal city = true →
  plain_cities (w_shops w) = true → plain_menu city w = true →
  (cache.get (search_cacheKey city query) w).1 = Ret None →
  city_shops city w ≠ [] →
  store_ok 2 w = true →
  (length (List.filter (search_match query city w) (w_items w)) ≤ 25)%nat →
  ∃ items,
    (searchItems (search_request (QString query) (QString city)) w).1
      = success (PSearch items) ∧
    ∀ v, v ∈ items ↔
         ∃ it, it ∈ w_items w ∧ search_match query city w it = true ∧
               v = itemProjection it.
Proof.
  intros Hq Hc Lq Lc Pc Pm Hmiss Hne Hok Hlen.
  destruct (searchItems_literal_run query city w Hq Hc Lc
              (literal_ascii _ Lq) Hmiss Hok Pc Pm)
    as (w1 & _ & _ & Hrun).
  rewrite bool_decide_eq_false_2 in Hrun
    by (intros H; apply length_zero_iff_nil in H; contradiction).
  rewrite (compile_literal _ Lq) in Hrun. cbv zeta in Hrun.
  assert (∀ it, search_filter (s_id <$> city_shops city w) (ALit <$> chars query) it
                = search_match query city w it) as Hsame.
  { intros it. unfold search_filter, search_match, names_query.
    cbn [itemProjection v_name v_category].
    rewrite !field_matches_literal. reflexivity. }
  rewrite (List.filter_ext _ _ Hsame) in Hrun.
  rewrite take_all in Hrun
    by (rewrite sort_by_length, length_fmap; exact Hlen).
  eexists. split; [rewrite Hrun; reflexivity|].
  intros v. rewrite sort_by_elem, list_elem_of_fmap. split.
  - intros (it & -> & Hit). apply list_elem_of_In, List.filter_In in Hit as [Hin Hm].
    exists it. split; [apply list_elem_of_In; exact Hin|]. split; [exact Hm|reflexivity].
  - intros (it & Hin & Hm & ->). exists it. split; [reflexivity|].
    apply list_elem_of_In, List.filter_In. split; [apply list_elem_of_In; exact Hin|exact Hm].
Qed.

Lemma search_finds_all_witness :
  ∃ items,
    (searchItems (search_request (QString "SNACK") (QString "pune")) pune_world).1
      = success (PSearch items) ∧
    (∀ v, v ∈ items → v_category v = Some "Snacks") ∧
    itemProjection (menu_item fries_id "Fries" "Snacks" no_rating) ∈ items.
Proof.
  destruct (search_finds_all "SNACK" "pune" pune_world)
    as (items & E & H);
    [discriminate | discriminate | reflexivity | reflexivity | reflexivity
    | reflexivity | reflexivity | discriminate | reflexivity
    | vm_compute; lia | ].
  exists items. split; [exact E|]. split.
  - intros v Hv. apply H in Hv as (it & Hin & Hm & ->).
    cbn in Hin. rewrite !elem_of_cons in Hin.
    destruct Hin as [->|[->|[->|Hin]]];
      [reflexivity | discriminate Hm | reflexivity | inversion Hin].
  - apply H. exists (menu_item fries_id "Fries" "Snacks" no_rating).
    split; [|split; reflexivity].
    cbn. rewrite !elem_of_cons. auto.
Defined.

Lemma city_absent_false city : city ≠ "" → absent (Some city) = false.
Proof. intros H. cbn. apply bool_decide_eq_false_2, H. Qed.

(** X14.  A city with no shop.  For a city made of literal ASCII characters
    (and an ASCII query), in a store where the cities of the shops are
    plain texts and none of them is that city, letter case apart: on a
    miss of the cache and with a store that answers, [getItemByCity]
    answers 404 with "No shops found in this city" and [searchItems]
    answers 404 with "shops not found"; neither sets an entry under its
    key, so the next request asks the store again. *)
Theorem no_shops_in_city :
  (∀ req city w,
     params_city req = Some city → city ≠ "" → literal city = true →
     plain_cities (w_shops w) = true →
     (cache.get (city_cacheKey city) w).1 = Ret None →
     city_shops city w = [] →
     store_ok 1 w = true →
     ∃ w',
       getItemByCity req w
         = (Replied {| status := 404;
                       body := BMessage "No shops found in this city" |}, w') ∧
       w_cache w' !! city_cacheKey city = None) ∧
  (∀ query city w,
     query ≠ "" → city ≠ "" → literal city = true →
     ascii_only query = true →
     plain_cities (w_shops w) = true →
     (cache.get (search_cacheKey city query) w).1 = Ret None →
     city_shops city w = [] →
     store_ok 1 w = true →
     ∃ w',
       searchItems (search_request (QString query) (QString city)) w
         = (Replied {| status := 404; body := BMessage "shops not found" |}, w') ∧
       w_cache w' !! search_cacheKey city query = None).
Proof.
  split.
  - intros req city w Hc Hne L Pc Hmiss Hnone Hok.
    destruct (cache_get_miss_state _ _ Hmiss)
      as (w1 & Hget & Hi & Hs & Hf & Hn & Hk).
    rewrite <- (store_ok_faults 1 w w1 Hf) in Hok.
    exists (served w1). split; [|exact Hk].
    unfold getItemByCity, try_catch. rewrite Hc, (city_absent_false _ Hne).
    cbn [default from_option id]. rewrite (literal_ascii _ L). cbn [negb].
    rewrite bind_run, Hget.
    rewrite bind_run, (find_city_run _ _ 0 _ L Hok) by (rewrite Hs; exact Pc).
    unfold city_shops in *. rewrite Hs, Hnone. reflexivity.
  - intros query city w Hq Hne L Aq Pc Hmiss Hnone Hok.
    destruct (cache_get_miss_state _ _ Hmiss)
      as (w1 & Hget & Hi & Hs & Hf & Hn & Hk).
    rewrite <- (store_ok_faults 1 w w1 Hf) in Hok.
    exists (served w1). split; [|exact Hk].
    unfold searchItems, try_catch.
    cbn [search_request query_query query_city query_absent].
    rewrite !bool_decide_eq_false_2 by assumption. cbn [orb].
    rewrite (literal_ascii _ L), Aq. cbn [andb negb].
    rewrite bind_run, Hget.
    rewrite bind_run, (find_city_run _ _ 0 _ L Hok) by (rewrite Hs; exact Pc).
    unfold city_shops in *. rewrite Hs, Hnone. reflexivity.
Qed.

Lemma no_shops_in_city_witness :
  (getItemByCity (city_request "Delhi") pune_world).1
    = Replied {| status := 404; body := BMessage "No shops found in this city" |} ∧
  (searchItems (search_request (QString "pizza") (QString "Delhi")) pune_world).1
    = Replied {| status := 404; body := BMessage "shops not found" |}.
Proof.
  destruct no_shops_in_city as [Hc Hs].
  destruct (Hc (city_request "Delhi") "Delhi" pune_world)
    as (w1 & E1 & _);
    [reflexivity | discriminate | reflexivity | reflexivity | reflexivity
    | reflexivity | reflexivity | ].
  destruct (Hs "pizza" "Delhi" pune_world)
    as (w2 & E2 & _);
    [discriminate | discriminate | reflexivity | reflexivity | reflexivity
    | reflexivity | reflexivity | reflexivity | ].
  rewrite E1, E2. split; reflexivity.
Defined.

Lemma fmap_brief_ids (l : list (ShopDoc oid)) :
  sb_id <$> (select_id_name_image <$> l) = s_id <$> l.
Proof. induction l as [|a l IH]; [reflexivity|]. cbn. rewrite IH. reflexivity. Qed.

(** X15.  The items of a city miss nothing.  For a city that is not empty
    and is made of literal ASCII characters, in a store where the cities
    of the shops are plain texts, on a miss of the cache, with a shop in
    the city and a store that answers: when the shops of the city have at
    most 50 stored items, [getItemByCity] answers 200 with exactly the
    projections of those items; the shops of the city are the shops whose
    city is the one of the request but for the case of the letters. *)
Theorem city_lists_all req city w :
  params_city req = Some city → city ≠ "" → literal city = true →
  plain_cities (w_shops w) = true →
  (cache.get (city_cacheKey city) w).1 = Ret None →
  city_shops city w ≠ [] →
  store_ok 2 w = true →
  (length (List.filter (city_match city w) (w_items w)) ≤ 50)%nat →
  ∃ items,
    (getItemByCity req w).1 = success (PCity items) ∧
    ∀ v, v ∈ ws_item <$> items ↔
         ∃ it, it ∈ w_items w ∧ city_match city w it = true ∧
               v = itemProjection it.
Proof.
  intros Hc Hne L Pc Hmiss Hshops Hok Hlen.
  destruct (cache_get_miss_state _ _ Hmiss)
    as (w1 & Hget & Hi & Hs & Hf & Hn & Hk).
  rewrite <- (store_ok_faults 2 w w1 Hf) in Hok.
  pose proof (store_ok_served _ _ Hok) as Hok1.
  eexists. split.
  - unfold getItemByCity, try_catch. rewrite Hc, (city_absent_false _ Hne).
    cbn [default from_option id]. rewrite (literal_ascii _ L). cbn [negb].
    rewrite bind_run, Hget.
    rewrite bind_run, (find_city_run _ _ 1 _ L Hok) by (rewrite Hs; exact Pc).
    unfold city_shops in *. rewrite Hs. rewrite length_fmap.
    rewrite bool_decide_eq_false_2
      by (intros H; apply length_zero_iff_nil in H; contradiction).
    rewrite bind_run, (find_limit_sort_all _ _ 0 _ Hok1).
    change (w_items (served w1)) with (w_items w1). rewrite Hi.
    reflexivity.
  - intros v. rewrite fmap_ws_item, fmap_brief_ids.
    change (λ it : ItemDoc oid,
              bool_decide (i_shop it ∈ s_id <$> List.filter
                             (λ s, equal_ci (s_city s) city) (w_shops w)))
      with (city_match city w).
    rewrite take_all by (rewrite sort_by_length, length_fmap; exact Hlen).
    rewrite sort_by_elem, list_elem_of_fmap. split.
    + intros (it & -> & Hit).
      apply list_elem_of_In, List.filter_In in Hit as [Hin Hm].
      exists it. split; [apply list_elem_of_In; exact Hin|]. split; [exact Hm|reflexivity].
    + intros (it & Hin & Hm & ->). exists it. split; [reflexivity|].
      apply list_elem_of_In, List.filter_In.
      split; [apply list_elem_of_In; exact Hin|exact Hm].
Qed.

Lemma city_lists_all_witness :
  ∃ items,
    (getItemByCity (city_request "PUNE") pune_world).1 = success (PCity items) ∧
    ∀ it, it ∈ w_items pune_world → itemProjection it ∈ ws_item <$> items.
Proof.
  destruct (city_lists_all (city_request "PUNE") "PUNE" pune_world)
    as (items & E & H);
    [reflexivity | discriminate | reflexivity | reflexivity | reflexivity
    | discriminate
    | reflexivity | vm_compute; lia | ].
  exists items. split; [exact E|].
  intros it Hin. apply H. exists it. split; [exact Hin|]. split; [|reflexivity].
  cbn in Hin. rewrite !elem_of_cons in Hin.
  destruct Hin as [->|[->|[->|Hin]]]; [reflexivity..|inversion Hin].
Defined.

(** ** The cached reads and the clock *)

Lemma cache_set_run key p w :
  cache.set key p w =
    (Ret (), with_cache (insert key {| ce_value := p;
                                       ce_expires := w_now w + 300000 |}) w).
Proof. reflexivity. Qed.

Lemma await_store_clock : keeps w_now await_store.
Proof.
  intros w. unfold await_store.
  destruct (head (w_faults w)) as [[]|]; reflexivity.
Qed.

Lemma cache_get_clock key : keeps w_now (cache.get key).
Proof.
  intros w. unfold cache.get. destruct (w_cache w !! key) as [e|]; [|reflexivity].
  destruct (cache.live (w_now w) e); reflexivity.
Qed.

Ltac clock_step :=
  first [ apply await_store_clock | apply cache_get_clock | apply keeps_stuck
        | apply keeps_promise_all | keeps_step ].

Lemma find_city_clock {A} city (sel : ShopDoc oid → A) :
  keeps w_now (Shop.find_city city sel).
Proof. unfold Shop.find_city. repeat clock_step. Qed.

Lemma find_limit_sort_clock d f n : keeps w_now (Item.find_limit_sort d f n).
Proof. unfold Item.find_limit_sort. repeat clock_step. Qed.

Lemma find_clock f : keeps w_now (Item.find f).
Proof. unfold Item.find. repeat clock_step. Qed.

Lemma shop_findById_clock s : keeps w_now (Shop.findById s).
Proof. unfold Shop.findById, castObjectId. repeat clock_step. Qed.

Lemma castObjectId_clock s : keeps w_now (castObjectId s).
Proof. unfold castObjectId. repeat clock_step. Qed.

Lemma kept {T A} (field : World → T) (m : M A) w o w' :
  keeps field m → m w = (o, w') → field w' = field w.
Proof. intros H E. specialize (H w). rewrite E in H. exact H. Qed.

(** After a miss, an answer 200 of a cached read has set its payload under
    its key, for 300 seconds from the time of the request. *)
Lemma getItemByCity_sets req key w p w1 :
  cacheKey_of GetItemByCity req = Some key →
  (cache.get key w).1 = Ret None →
  getItemByCity req w = (success p, w1) →
  w_cache w1 !! key = Some {| ce_value := p; ce_expires := w_now w + 300000 |}.
Proof.
  intros Hk Hmiss. cbn [cacheKey_of] in Hk.
  unfold getItemByCity, try_catch.
  destruct (absent (params_city req)); [discriminate|].
  destruct (negb (ascii_only _)); [discriminate|]. injection Hk as <-.
  rewrite bind_run.
  destruct (cache.get _ w) as [[[q|]|e|] w2] eqn:Eg; try discriminate.
  pose proof (kept _ _ _ _ _ (cache_get_clock _) Eg) as Hnow.
  rewrite bind_run.
  destruct (Shop.find_city _ select_id_name_image w2) as [[shops|e|] w3] eqn:E3;
    try discriminate.
  pose proof (kept _ _ _ _ _ (find_city_clock _ _) E3) as Hnow3.
  destruct (bool_decide (length shops = 0)); [discriminate|].
  rewrite bind_run.
  destruct (Item.find_limit_sort _ _ 50 w3) as [[items|e|] w4] eqn:E4;
    try discriminate.
  pose proof (kept _ _ _ _ _ (find_limit_sort_clock _ _ _) E4) as Hnow4.
  rewrite bind_run, cache_set_run. cbn [send mret M_ret]. unfold success.
  intros H. injection H as <- <-. cbn [w_cache with_cache].
  rewrite lookup_insert_eq, Hnow4, Hnow3, Hnow. reflexivity.
Qed.

Lemma getItemsByShop_sets req key w p w1 :
  cacheKey_of GetItemsByShop req = Some key →
  (cache.get key w).1 = Ret None →
  getItemsByShop req w = (success p, w1) →
  w_cache w1 !! key = Some {| ce_value := p; ce_expires := w_now w + 300000 |}.
Proof.
  intros Hk Hmiss. cbn [cacheKey_of] in Hk. injection Hk as <-.
  unfold getItemsByShop, try_catch.
  rewrite bind_run.
  destruct (cache.get _ w) as [[[q|]|e|] w2] eqn:Eg; try discriminate.
  pose proof (kept _ _ _ _ _ (cache_get_clock _) Eg) as Hnow.
  rewrite bind_run.
  match goal with |- context [promise_all ?a ?b w2] =>
    assert (keeps w_now (promise_all a b)) as Hk
      by (apply keeps_promise_all;
          [apply shop_findById_clock
          |apply keeps_bind; [apply castObjectId_clock|intros ?; apply find_clock]]);
    destruct (promise_all a b w2) as [[[shop items]|e|] w3] eqn:E3;
      try discriminate
  end.
  pose proof (kept _ _ _ _ _ Hk E3) as Hnow3.
  destruct shop as [shop|]; [|discriminate].
  rewrite bind_run, cache_set_run. cbn [send mret M_ret]. unfold success.
  intros H. injection H as <- <-. cbn [w_cache with_cache].
  rewrite lookup_insert_eq, Hnow3, Hnow. reflexivity.
Qed.

Lemma searchItems_sets req key w p w1 :
  cacheKey_of SearchItems req = Some key →
  (cache.get key w).1 = Ret None →
  searchItems req w = (success p, w1) →
  w_cache w1 !! key = Some {| ce_value := p; ce_expires := w_now w + 300000 |}.
Proof.
  intros Hk Hmiss. cbn [cacheKey_of] in Hk.
  unfold searchItems, try_catch.
  destruct (query_city req) as [|city|]; try discriminate.
  destruct (query_query req) as [|query|]; try discriminate.
  destruct (query_absent (QString query) || query_absent (QString city));
    [discriminate|].
  destruct (negb (ascii_only city && ascii_only query)); [discriminate|].
  injection Hk as <-.
  rewrite bind_run.
  destruct (cache.get _ w) as [[[q|]|e|] w2] eqn:Eg; try discriminate.
  pose proof (kept _ _ _ _ _ (cache_get_clock _) Eg) as Hnow.
  rewrite bind_run.
  destruct (Shop.find_city _ s_id w2) as [[shops|e|] w3] eqn:E3;
    try discriminate.
  pose proof (kept _ _ _ _ _ (find_city_clock _ _) E3) as Hnow3.
  destruct (bool_decide (length shops = 0)); [discriminate|].
  destruct (compile query); [|discriminate].
  rewrite bind_run.
  destruct (Item.find_limit_sort _ _ 25 w3) as [[items|e|] w4] eqn:E4;
    try discriminate.
  pose proof (kept _ _ _ _ _ (find_limit_sort_clock _ _ _) E4) as Hnow4.
  rewrite bind_run, cache_set_run. cbn [send mret M_ret]. unfold success.
  intros H. injection H as <- <-. cbn [w_cache with_cache].
  rewrite lookup_insert_eq, Hnow4, Hnow3, Hnow. reflexivity.
Qed.

Lemma cache_get_live key e w :
  w_cache w !! key = Some e → (w_now w ≤ ce_expires e)%Z →
  (cache.get key w).1 = Ret (Some (ce_value e)).
Proof.
  intros He Ht. unfold cache.get, cache.live. rewrite He.
  assert ((ce_expires e <? w_now w)%Z = false) as -> by (apply Z.ltb_ge; lia).
  reflexivity.
Qed.

Lemma cache_get_expired key e w :
  w_cache w !! key = Some e → (ce_expires e < w_now w)%Z →
  cache.get key w = (Ret None, with_cache (delete key) w).
Proof.
  intros He Ht. unfold cache.get, cache.live. rewrite He.
  assert ((ce_expires e <? w_now w)%Z = true) as -> by (apply Z.ltb_lt; lia).
  reflexivity.
Qed.

Lemma read_sets_entry op req key w p w1 :
  cacheKey_of op req = Some key →
  (cache.get key w).1 = Ret None →
  handle op req w = (success p, w1) →
  w_cache w1 !! key = Some {| ce_value := p; ce_expires := w_now w + 300000 |}.
Proof.
  intros Hk Hmiss Hrun.
  destruct op; try discriminate; cbn [handle] in Hrun.
  - eapply getItemByCity_sets; eassumption.
  - eapply getItemsByShop_sets; eassumption.
  - eapply searchItems_sets; eassumption.
Qed.

(** X16.  The window of a cached read.  When one of the three cached
    reads misses the cache and answers 200 at the time [t], then in every
    later world that still holds the entry of its key, the same request is
    answered from the cache, payload for payload and without a change of
    the world, as long as the clock is at most [t + 300000] milliseconds;
    past that, the entry is expired: [cache.get] misses and deletes it. *)
Theorem cached_read_window op req key w p w1 :
  cacheKey_of op req = Some key →
  (cache.get key w).1 = Ret None →
  handle op req w = (success p, w1) →
  ∀ w2,
    w_cache w2 !! key = w_cache w1 !! key →
    ((w_now w2 ≤ w_now w + 300000)%Z → handle op req w2 = (success p, w2)) ∧
    ((w_now w + 300000 < w_now w2)%Z →
     cache.get key w2 = (Ret None, with_cache (delete key) w2)).
Proof.
  intros Hk Hmiss Hrun w2 Hsame.
  pose proof (read_sets_entry op req key w p w1 Hk Hmiss Hrun) as Hset.
  rewrite Hset in Hsame. split; intros Ht.
  - apply (hit_replays op req w2 key p Hk).
    apply (cache_get_live key _ w2 Hsame). exact Ht.
  - apply (cache_get_expired key _ w2 Hsame). exact Ht.
Qed.

Lemma cached_read_window_witness :
  ∃ w1,
    getItemByCity (city_request "Pune") pune_world = (success pune_menu, w1) ∧
    getItemByCity (city_request "Pune") (with_now 300000 w1)
      = (success pune_menu, with_now 300000 w1) ∧
    cache.get "items_city_pune" (with_now 300001 w1)
      = (Ret None, with_cache (delete "items_city_pune") (with_now 300001 w1)).
Proof.
  destruct (getItemByCity (city_request "Pune") pune_world) as [r w1] eqn:E.
  assert (r = success pune_menu) as ->.
  { change r with (r, w1).1. rewrite <- E. reflexivity. }
  exists w1. split; [reflexivity|].
  pose proof (cached_read_window GetItemByCity (city_request "Pune")
                "items_city_pune" pune_world pune_menu w1
                eq_refl eq_refl E) as H.
  split.
  - apply (H (with_now 300000 w1)); [reflexivity|]. cbn. lia.
  - apply (H (with_now 300001 w1)); [reflexivity|]. cbn. lia.
Defined.

Lemma cache_set_clock key p : keeps w_now (cache.set key p).
Proof. intros w. reflexivity. Qed.

Ltac clock_all :=
  apply keeps_try_catch; unfold message, send;
  repeat first
    [ apply find_city_clock | apply find_limit_sort_clock | apply find_clock
    | apply shop_findById_clock | apply castObjectId_clock
    | apply cache_set_clock | clock_step ].

Lemma getItemByCity_clock req w : w_now (getItemByCity req w).2 = w_now w.
Proof. clock_all. Qed.

Lemma getItemsByShop_clock req w : w_now (getItemsByShop req w).2 = w_now w.
Proof. clock_all. Qed.

Lemma searchItems_clock req w : w_now (searchItems req w).2 = w_now w.
Proof. clock_all. Qed.

Lemma cache_get_total key w :
  (∃ p, (cache.get key w).1 = Ret (Some p)) ∨ (cache.get key w).1 = Ret None.
Proof.
  unfold cache.get. destruct (w_cache w !! key) as [x|];
    [destruct (cache.live (w_now w) x)|]; cbn; eauto.
Qed.

(** After an answer 200 of a search, hit or miss, its payload is served
    under its key. *)
Lemma searchItems_cached req key w p w1 :
  cacheKey_of SearchItems req = Some key →
  searchItems req w = (success p, w1) →
  cache.get key w1 = (Ret (Some p), w1).
Proof.
  intros Hk Hrun. destruct (cache_get_total key w) as [[q Hq]|Hm].
  - pose proof (hit_replays SearchItems req w key q Hk Hq) as Hh.
    cbn [handle] in Hh. rewrite Hh in Hrun. injection Hrun as <- <-.
    apply cache_get_hit_run, Hq.
  - pose proof (searchItems_sets req key w p w1 Hk Hm Hrun) as Hset.
    pose proof (cache_get_live key _ w1 Hset) as Hl.
    cbn [ce_expires ce_value] in Hl.
    apply cache_get_hit_run, Hl.
    pose proof (searchItems_clock req w) as Hc. rewrite Hrun in Hc.
    cbn [snd] in Hc. lia.
Qed.

Lemma ascii_only_app s t :
  ascii_only (s +:+ t) = ascii_only s && ascii_only t.
Proof. unfold ascii_only. rewrite chars_app. apply forallb_app. Qed.

(** The key of a search is ASCII when its city and its query are. *)
Lemma search_key_ascii c q :
  ascii_only (search_cacheKey c q) = ascii_only c && ascii_only q.
Proof.
  unfold search_cacheKey. rewrite !ascii_only_app, !ascii_only_lower.
  reflexivity.
Qed.

(** X17.  Two searches with one key.  The key of a search is made of the
    city and the query with a [_] between them, so two searches can have
    the same key; then a search answered 200 leaves under the key a
    payload that answers the other search as well, whatever the store
    holds for it. *)
Theorem search_keys_collide c1 q1 c2 q2 w p w1 :
  search_cacheKey c1 q1 = search_cacheKey c2 q2 →
  q1 ≠ "" → c1 ≠ "" → q2 ≠ "" → c2 ≠ "" →
  searchItems (search_request (QString q1) (QString c1)) w = (success p, w1) →
  searchItems (search_request (QString q2) (QString c2)) w1 = (success p, w1).
Proof.
  intros Hkey Hq1 Hc1 Hq2 Hc2 Hrun.
  assert (∀ q c, q ≠ "" → c ≠ "" → ascii_only c && ascii_only q = true →
            cacheKey_of SearchItems (search_request (QString q) (QString c))
              = Some (search_cacheKey c q)) as Hk.
  { intros q c Hq Hc Ha.
    cbn [cacheKey_of search_request query_city query_query query_absent].
    rewrite !bool_decide_eq_false_2 by assumption. rewrite Ha. reflexivity. }
  assert (ascii_only c1 && ascii_only q1 = true) as Ha1.
  { revert Hrun. unfold searchItems, try_catch.
    cbn [search_request query_query query_city query_absent].
    rewrite !bool_decide_eq_false_2 by assumption. cbn [orb].
    destruct (ascii_only c1 && ascii_only q1); [reflexivity|discriminate]. }
  assert (ascii_only c2 && ascii_only q2 = true) as Ha2.
  { rewrite <- (search_key_ascii c2 q2), <- Hkey, search_key_ascii.
    exact Ha1. }
  pose proof (searchItems_cached _ _ _ _ _ (Hk q1 c1 Hq1 Hc1 Ha1) Hrun) as Hc.
  rewrite Hkey in Hc.
  apply (hit_replays SearchItems _ w1 _ p (Hk q2 c2 Hq2 Hc2 Ha2)).
  rewrite Hc. reflexivity.
Qed.

(** On [pune_world]: the query [b] in the city [Pune_a], where there is no
    shop, is answered 404; after a search for [a_b] in [Pune] it is
    answered 200 with the items of that search. *)
Lemma search_keys_collide_witness :
  search_cacheKey "Pune" "a_b" = search_cacheKey "Pune_a" "b" ∧
  (searchItems (search_request (QString "b") (QString "Pune_a")) pune_world).1
    = Replied {| status := 404; body := BMessage "shops not found" |} ∧
  (searchItems (search_request (QString "b") (QString "Pune_a"))
     (searchItems (search_request (QString "a_b") (QString "Pune")) pune_world).2).1
    = success (PSearch []).
Proof.
  split; [reflexivity|]. split; [reflexivity|].
  rewrite (search_keys_collide "Pune" "a_b" "Pune_a" "b" pune_world (PSearch [])
             (searchItems (search_request (QString "a_b") (QString "Pune")) pune_world).2);
    [reflexivity | reflexivity | discriminate | discriminate | discriminate
    | discriminate | vm_compute; reflexivity].
Defined.

Lemma after_keeps writes w :
  Forall (λ r : Operation * Request, is_mutation r.1 = true) writes →
  w_cache (after writes w) = w_cache w.
Proof.
  unfold after. revert w.
  induction writes as [|[op req] writes IH]; intros w H; [reflexivity|].
  apply Forall_cons in H as [Hop H]. cbn [foldl fst snd].
  rewrite (IH _ H). apply cache_state_cache, mutation_keeps, Hop.
Qed.

(** X18.  The writes are hidden behind the cache.  When a cached read has
    missed the cache and answered 200 at the time [t0], then after any
    sequence of adds, edits, deletes and ratings, whatever they write to
    the store, the same read at a time up to [t0 + 300000] milliseconds is
    answered with the payload of before the writes: no handler that writes
    invalidates an entry. *)
Theorem writes_hidden_by_cache op req key w p w1 writes t :
  cacheKey_of op req = Some key →
  (cache.get key w).1 = Ret None →
  handle op req w = (success p, w1) →
  Forall (λ r : Operation * Request, is_mutation r.1 = true) writes →
  (t ≤ w_now w + 300000)%Z →
  handle op req (with_now t (after writes w1))
    = (success p, with_now t (after writes w1)).
Proof.
  intros Hk Hmiss Hrun Hw Ht.
  pose proof (read_sets_entry op req key w p w1 Hk Hmiss Hrun) as Hset.
  apply (hit_replays op req _ key p Hk).
  apply (cache_get_live key {| ce_value := p; ce_expires := w_now w + 300000 |}).
  - cbn [w_cache with_now]. rewrite (after_keeps _ _ Hw). exact Hset.
  - exact Ht.
Qed.

Lemma writes_hidden_by_cache_witness :
  ∃ w1,
    getItemByCity (city_request "Pune") pune_world = (success pune_menu, w1) ∧
    let writes :=
      [ (SubmitRating, rating_request pizza_id 5%float);
        (DeleteItem, item_request owner_id burger_id) ] in
    i_id <$> w_items (after writes w1) = [pizza_id; fries_id] ∧
    (getItemByCity (city_request "Pune") (with_now 300000 (after writes w1))).1
      = success pune_menu.
Proof.
  destruct (getItemByCity (city_request "Pune") pune_world) as [r w1] eqn:E.
  assert (r = success pune_menu) as ->.
  { change r with (r, w1).1. rewrite <- E. reflexivity. }
  assert (w1 = (getItemByCity (city_request "Pune") pune_world).2) as Hw1
    by (rewrite E; reflexivity).
  exists w1. split; [reflexivity|]. cbv zeta. split.
  - rewrite Hw1. reflexivity.
  - pose proof (writes_hidden_by_cache GetItemByCity (city_request "Pune")
                  "items_city_pune" pune_world pune_menu w1
                  [ (SubmitRating, rating_request pizza_id 5%float);
                    (DeleteItem, item_request owner_id burger_id) ]
                  300000 eq_refl eq_refl E) as H.
    cbn [handle] in H. rewrite H; [reflexivity | repeat constructor | cbn; lia].
Defined.

(** ** The kinds of the payloads *)

Lemma caches_kind_bind {A} (m : M A) (f : A → M Result) :
  no_new m → (∀ a, caches_kind (f a)) → caches_kind (m ≫= f).
Proof.
  intros Hm Hf w k e. rewrite bind_run. specialize (Hm w k e).
  destruct (m w) as [[a|err|] w']; simpl in *; auto.
  intros H. destruct (Hf a w' k e H) as [H'|H']; auto.
Qed.

Lemma no_new_kind (m : M Result) : no_new m → caches_kind m.
Proof. intros H w k e Hk. left. eapply H, Hk. Qed.

Lemma caches_kind_set key p (m : M Result) :
  kind_ok key p = true → no_new m → caches_kind (cache.set key p ;; m).
Proof.
  intros Hkind Hm w k e. rewrite bind_run. unfold cache.set.
  intros H. apply Hm in H. cbn [w_cache with_cache] in H.
  apply lookup_insert_Some in H as [[<- <-]|[_ H]]; [right|left].
  - exact Hkind.
  - exact H.
Qed.

Lemma caches_kind_try_catch text m w :
  caches_kind m → well_kinded w → well_kinded (try_catch text m w).2.
Proof.
  intros Hm Hw k e. specialize (Hm w k e). unfold try_catch.
  destruct (m w) as [[r|err|] w']; simpl in *; intros H;
    destruct (Hm H) as [H'|H']; auto.
Qed.

Ltac kind_step :=
  first
    [ apply caches_kind_set; [reflexivity|apply no_new_ret]
    | apply no_new_get | apply no_new_find_city | apply no_new_find_limit_sort
    | apply no_new_find | apply no_new_shop_findById | apply no_new_cast
    | apply no_new_promise_all
    | apply no_new_ret | apply no_new_throw | apply no_new_stuck
    | match goal with
      | |- caches_kind (match ?x with _ => _ end) => destruct x
      | |- caches_kind (let _ := _ in _) => cbv zeta
      | |- no_new (match ?x with _ => _ end) => destruct x
      | |- caches_kind (_ ≫= _) => apply caches_kind_bind; [ | intros ? ]
      | |- no_new (_ ≫= _) => apply no_new_bind; [ | intros ? ]
      | |- caches_kind _ => apply no_new_kind
      end ].

Ltac kind_all :=
  apply caches_kind_try_catch; [unfold message, send; repeat kind_step|assumption].

Lemma getItemByCity_kinds req w :
  well_kinded w → well_kinded (getItemByCity req w).2.
Proof. intros Hw. kind_all. Qed.

Lemma getItemsByShop_kinds req w :
  well_kinded w → well_kinded (getItemsByShop req w).2.
Proof. intros Hw. kind_all. Qed.

Lemma searchItems_kinds req w :
  well_kinded w → well_kinded (searchItems req w).2.
Proof. intros Hw. kind_all. Qed.

Lemma shape_try_catch op text m w :
  answers (shape_of op) m → shape_of op (try_catch text m w).1.
Proof.
  intros H. specialize (H w). unfold try_catch.
  destruct (m w) as [[r|e|] w']; simpl in *; [exact H| |exact I].
  intros [?|?]; discriminate.
Qed.

Lemma shape_failure op code text :
  code ≠ 200 → code ≠ 201 →
  shape_of op (Replied {| status := code; body := BMessage text |}).
Proof. intros H1 H2 [?|?]; contradiction. Qed.

Ltac shape_step :=
  first
    [ apply answers_bind; intros ?
    | apply answers_send;
      first [ apply shape_failure; discriminate | intros _; exact I ]
    | apply answers_throw | apply answers_stuck
    | match goal with
      | |- answers _ (match ?x with _ => _ end) => destruct x
      | |- answers _ (let _ := _ in _) => cbv zeta
      end ].

Ltac shape_all := apply shape_try_catch; unfold message; repeat shape_step.

Lemma addItem_shape req w : shape_of AddItem (addItem req w).1.
Proof. shape_all. Qed.
Lemma editItem_shape req w : shape_of EditItem (editItem req w).1.
Proof. shape_all. Qed.
Lemma getItemById_shape req w : shape_of GetItemById (getItemById req w).1.
Proof. shape_all. Qed.
Lemma deleteItem_shape req w : shape_of DeleteItem (deleteItem req w).1.
Proof. shape_all. Qed.
Lemma rating_shape req w : shape_of SubmitRating (rating req w).1.
Proof. shape_all. Qed.

Lemma cached_shape op text key (rest : M Result) w :
  well_kinded w →
  (∀ p, kind_ok key p = true → shaped op (BPayload p)) →
  answers (shape_of op) rest →
  shape_of op
    (try_catch text
       (cached ← cache.get key;
        match cached with
        | Some p => send 200 (BPayload p)
        | None => rest
        end) w).1.
Proof.
  intros Hw Hkind Hrest. unfold try_catch. rewrite bind_run.
  unfold cache.get. destruct (w_cache w !! key) as [e|] eqn:He.
  - destruct (cache.live (w_now w) e).
    + cbn. intros _. apply Hkind, (Hw _ _ He).
    + apply (shape_try_catch op text rest).  exact Hrest.
  - apply (shape_try_catch op text rest). exact Hrest.
Qed.

Lemma getItemByCity_shape req w :
  well_kinded w → shape_of GetItemByCity (getItemByCity req w).1.
Proof.
  intros Hw. unfold getItemByCity.
  destruct (absent (params_city req)).
  - apply shape_try_catch. unfold message. repeat shape_step.
  - cbv zeta. destruct (negb (ascii_only _)).
    { apply shape_try_catch. apply answers_stuck. }
    apply cached_shape; [exact Hw| |unfold message; repeat shape_step].
    intros [] H; try exact I; discriminate H.
Qed.

Lemma getItemsByShop_shape req w :
  well_kinded w → shape_of GetItemsByShop (getItemsByShop req w).1.
Proof.
  intros Hw. unfold getItemsByShop. cbv zeta.
  apply cached_shape; [exact Hw| |unfold message; repeat shape_step].
  intros [] H; try exact I; discriminate H.
Qed.

Lemma searchItems_shape req w :
  well_kinded w → shape_of SearchItems (searchItems req w).1.
Proof.
  intros Hw. unfold searchItems.
  destruct (query_absent (query_query req) || query_absent (query_city req)).
  { apply shape_try_catch. intros w'. exact I. }
  destruct (query_city req) as [|city|];
    try (apply shape_try_catch; apply answers_throw).
  destruct (query_query req) as [|query|];
    try (apply shape_try_catch; apply answers_throw).
  cbv zeta. destruct (negb (ascii_only city && ascii_only query)).
  { apply shape_try_catch. apply answers_stuck. }
  apply cached_shape; [exact Hw| |unfold message; repeat shape_step].
  intros [] H; try exact I; discriminate H.
Qed.

Lemma handle_kinds op req w : well_kinded w → well_kinded (handle op req w).2.
Proof.
  intros Hw. destruct op; cbn [handle];
    auto using getItemByCity_kinds, getItemsByShop_kinds, searchItems_kinds;
    intros k e H.
  - rewrite (cache_state_cache _ _ (addItem_keeps req w)) in H. eauto.
  - rewrite (cache_state_cache _ _ (editItem_keeps req w)) in H. eauto.
  - rewrite (cache_state_cache _ _ (getItemById_keeps req w)) in H. eauto.
  - rewrite (cache_state_cache _ _ (deleteItem_keeps req w)) in H. eauto.
  - rewrite (cache_state_cache _ _ (rating_keeps req w)) in H. eauto.
Qed.

Lemma run_kinds w0 log w : run w0 log w → well_kinded w0 → well_kinded w.
Proof.
  induction 1 as [|log w op req Hrun IH|log w w' Hrun IH Hc|log w Hrun IH];
    intros H0.
  - exact H0.
  - apply handle_kinds, IH, H0.
  - intros k e Hk. rewrite Hc in Hk. apply (IH H0 _ _ Hk).
  - intros k e Hk. unfold cache.sweep in Hk. cbn [w_cache with_cache] in Hk.
    apply map_lookup_filter_Some in Hk as [Hk _]. apply (IH H0 _ _ Hk).
Qed.

Lemma handle_shape op req w : well_kinded w → shape_of op (handle op req w).1.
Proof.
  intros Hw. destruct op; cbn [handle];
    auto using addItem_shape, editItem_shape, getItemById_shape,
      deleteItem_shape, rating_shape, getItemByCity_shape,
      getItemsByShop_shape, searchItems_shape.
Qed.

(** X19.  Each handler has one body of success.  In every world of a run
    from an empty cache, an answer of status 200 or 201 carries the shop of
    [addItem], [editItem] and [deleteItem] (never [null] for an add or a
    delete), the item of [getItemById], the rating of [rating], the list
    of items with their shops of [getItemByCity], the shop and its items
    of [getItemsByShop], the list of items of [searchItems]: the keys of
    the three cached reads have different prefixes, so a hit never answers
    the payload of another handler. *)
Theorem responses_shaped w0 log w op req r :
  run w0 log w → w_cache w0 = ∅ →
  (handle op req w).1 = Replied r →
  status r = 200 ∨ status r = 201 →
  shaped op (body r).
Proof.
  intros Hrun H0 Hr Hs.
  assert (well_kinded w) as Hw.
  { apply (run_kinds _ _ _ Hrun). intros k e Hk.
    rewrite H0, lookup_empty in Hk. discriminate. }
  pose proof (handle_shape op req w Hw) as H. rewrite Hr in H. exact (H Hs).
Qed.

Lemma responses_shaped_witness :
  ∃ r,
    (handle GetItemByCity (city_request "Pune")
       (handle SearchItems (search_request (QString "burger") (QString "Pune"))
          pune_world).2).1 = Replied r ∧
    status r = 200%nat ∧
    shaped GetItemByCity (body r).
Proof.
  exists {| status := 200; body := BPayload pune_menu |}.
  split; [reflexivity|]. split; [reflexivity|].
  apply (responses_shaped pune_world _ _ GetItemByCity (city_request "Pune")
           {| status := 200; body := BPayload pune_menu |}
           (run_request pune_world [] pune_world SearchItems
              (search_request (QString "burger") (QString "Pune"))
              (run_start pune_world)));
    [reflexivity | reflexivity | left; reflexivity].
Defined.

(** ** The shops under the handlers *)

(** With ids that are all different, the shop that has the id of a shop
    of the list is that shop. *)
Lemma find_shop_unique l sh :
  NoDup (s_id <$> l) → sh ∈ l →
  List.find (shop_has_id (s_id sh)) l = Some sh.
Proof.
  induction l as [|a l IH]; intros Hnd Hin; [inversion Hin|].
  cbn in Hnd. apply NoDup_cons in Hnd as [Ha Hnd].
  cbn [List.find]. unfold shop_has_id at 1.
  apply elem_of_cons in Hin as [->|Hin].
  - rewrite bool_decide_eq_true_2 by reflexivity. reflexivity.
  - rewrite bool_decide_eq_false_2.
    + apply IH; assumption.
    + intros E. apply Ha. rewrite E. apply list_elem_of_fmap. eauto.
Qed.

Lemma findOne_inv s w o w1 :
  Shop.findOne s w = (o, w1) →
  w_shops w1 = w_shops w ∧
  ∀ d, o = Ret (Some d) →
       ∃ sh ids, sh ∈ w_shops w ∧ shop_card (shop_values d) = shop_card sh ∧
                 ohex (s_id d) = s_id sh ∧ d = hydrated_shop ids sh.
Proof.
  unfold Shop.findOne, castObjectId. rewrite bind_run.
  destruct (parseObjectId s) as [id|].
  2:{ intros H. injection H as <- <-. split; [reflexivity|discriminate]. }
  cbn [mret M_ret]. rewrite bind_run. unfold await_store.
  destruct (head (w_faults w)) as [[]|].
  1:{ intros H. injection H as <- <-. split; [reflexivity|discriminate]. }
  all: rewrite bind_run; cbn [world];
    change (w_shops (served w)) with (w_shops w);
    destruct (List.find _ (w_shops w)) as [sh|] eqn:E;
    [ rewrite bind_run, hydrate_shop_run; cbn [mret M_ret];
      intros H; injection H as <- <-; split; [reflexivity|];
      intros d Hd; injection Hd as <-;
      exists sh, (w_heap (served w)); apply List.find_some in E as [E _];
      split; [apply list_elem_of_In; exact E|];
      split; [reflexivity|]; split; reflexivity
    | intros H; injection H as <- <-; split; [reflexivity|discriminate] ].
Qed.

Lemma shop_save_cards d w :
  (∀ sh, List.find (shop_has_id (ohex (s_id d))) (w_shops w) = Some sh →
         shop_card (shop_values d) = shop_card sh) →
  shop_cards (Shop.save d w).2 = shop_cards w.
Proof.
  intros H. unfold Shop.save. rewrite bind_run. unfold await_store.
  destruct (head (w_faults w)) as [[]|]; try reflexivity.
  all: rewrite bind_run; cbn [world];
    change (w_shops (served w)) with (w_shops w);
    destruct (List.find _ (w_shops w)) as [sh|] eqn:E; [|reflexivity];
    unfold shop_cards; cbn [update snd w_shops with_shops served with_faults];
    erewrite fmap_replace_first; [reflexivity|exact E|apply H; reflexivity].
Qed.

Lemma create_cards n c f p i s : keeps shop_cards (Item.create n c f p i s).
Proof. unfold Item.create, hydrate_item. keeps_auto. Qed.

Lemma findByIdAndDelete_cards s : keeps shop_cards (Item.findByIdAndDelete s).
Proof. unfold Item.findByIdAndDelete, castObjectId, hydrate_item. keeps_auto. Qed.

Lemma populate_items_cards d : keeps shop_cards (Shop.populate_items d).
Proof. unfold Shop.populate_items. keeps_auto. Qed.

Lemma populate_owner_cards d : keeps shop_cards (Shop.populate_owner d).
Proof. unfold Shop.populate_owner. keeps_auto. Qed.

Lemma bind_cards {A B} (m : M A) (f : A → M B) w :
  shop_cards (m w).2 = shop_cards w →
  (∀ a w', m w = (Ret a, w') → shop_cards (f a w').2 = shop_cards w') →
  shop_cards ((m ≫= f) w).2 = shop_cards w.
Proof.
  intros Hm Hf. rewrite bind_run.
  destruct (m w) as [[a|e|] w'] eqn:E; cbn [snd] in *; try exact Hm.
  rewrite (Hf a w' eq_refl). exact Hm.
Qed.

Lemma kept_run {T A} (field : World → T) (m : M A) w :
  keeps field m → field (m w).2 = field w.
Proof. intros H. apply H. Qed.

Lemma save_found_cards d sh w :
  NoDup (s_id <$> w_shops w) → sh ∈ w_shops w →
  ohex (s_id d) = s_id sh → shop_card (shop_values d) = shop_card sh →
  shop_cards (Shop.save d w).2 = shop_cards w.
Proof.
  intros Hnd Hin Hid Hc. apply shop_save_cards. intros sh' Hf.
  rewrite Hid, (find_shop_unique _ _ Hnd Hin) in Hf. injection Hf as <-.
  exact Hc.
Qed.

Lemma cards_shops w w' : w_shops w' = w_shops w → shop_cards w' = shop_cards w.
Proof. unfold shop_cards. intros ->. reflexivity. Qed.

Lemma try_catch_cards text (m : M Result) w :
  shop_cards (m w).2 = shop_cards w →
  shop_cards (try_catch text m w).2 = shop_cards w.
Proof. unfold try_catch. destruct (m w) as [[r|e|] w']; auto. Qed.

Lemma create_shops n c f p i s : keeps w_shops (Item.create n c f p i s).
Proof. unfold Item.create, hydrate_item. keeps_auto. Qed.

Lemma findByIdAndDelete_shops s : keeps w_shops (Item.findByIdAndDelete s).
Proof. unfold Item.findByIdAndDelete, castObjectId, hydrate_item. keeps_auto. Qed.

Lemma addItem_cards req w :
  NoDup (s_id <$> w_shops w) → shop_cards (addItem req w).2 = shop_cards w.
Proof.
  intros Hnd. unfold addItem. apply try_catch_cards.
  apply bind_cards.
  { destruct (upload_file req w) as [o w0] eqn:E.
    rewrite (upload_file_world _ _ _ _ E). reflexivity. }
  intros image w0 Eu. apply upload_file_world in Eu as ->.
  destruct (Shop.findOne (userId req) w) as [o w1] eqn:E1.
  destruct (findOne_inv _ _ _ _ E1) as [Hs1 Hd].
  apply bind_cards; [rewrite E1; apply cards_shops, Hs1|].
  intros [d|] w1' E1'; [|reflexivity].
  rewrite E1 in E1'. injection E1' as -> <-.
  destruct (Hd d eq_refl) as (sh & ids & Hin & Hc & Hid & _).
  apply bind_cards; [apply create_cards|].
  intros item w2 E2. cbv zeta.
  apply (kept _ _ _ _ _ (create_shops _ _ _ _ _ _)) in E2.
  apply bind_cards.
  { apply save_found_cards with sh; rewrite ?E2, ?Hs1; assumption. }
  intros _ w3 _. apply kept_run.
  repeat first [ apply populate_owner_cards | apply populate_items_cards
               | keeps_step | keeps_prim ].
Qed.

Lemma deleteItem_cards req w :
  NoDup (s_id <$> w_shops w) → shop_cards (deleteItem req w).2 = shop_cards w.
Proof.
  intros Hnd. unfold deleteItem. apply try_catch_cards. cbv zeta.
  apply bind_cards; [apply findByIdAndDelete_cards|].
  intros [item|] w0 E0; [|reflexivity].
  apply (kept _ _ _ _ _ (findByIdAndDelete_shops _)) in E0.
  destruct (Shop.findOne (userId req) w0) as [o w1] eqn:E1.
  destruct (findOne_inv _ _ _ _ E1) as [Hs1 Hd].
  apply bind_cards; [rewrite E1; apply cards_shops, Hs1|].
  intros [d|] w1' E1'; [|reflexivity].
  rewrite E1 in E1'. injection E1' as -> <-.
  destruct (Hd d eq_refl) as (sh & ids & Hin & Hc & Hid & _).
  apply bind_cards.
  { rewrite E0 in Hin.
    apply save_found_cards with sh; rewrite ?Hs1, ?E0; assumption. }
  intros _ w3 _. apply kept_run.
  repeat first [ apply populate_items_cards | keeps_step | keeps_prim ].
Qed.

Ltac cards_all :=
  apply keeps_try_catch;
  unfold upload_file, Item.findById, Item.findByIdAndUpdate, Item.save,
    Item.find, Item.find_limit_sort, Shop.findOne, Shop.findById,
    Shop.find_city, Shop.populate_items, castObjectId, send, message,
    hydrate_item, hydrate_shop;
  repeat first
    [ apply keeps_promise_all | apply keeps_stuck | keeps_step | keeps_prim ].

Lemma editItem_cards req w : shop_cards (editItem req w).2 = shop_cards w.
Proof. cards_all. Qed.

Lemma getItemById_cards req w : shop_cards (getItemById req w).2 = shop_cards w.
Proof. cards_all. Qed.

Lemma getItemByCity_cards req w : shop_cards (getItemByCity req w).2 = shop_cards w.
Proof. cards_all. Qed.

Lemma getItemsByShop_cards req w : shop_cards (getItemsByShop req w).2 = shop_cards w.
Proof. cards_all. Qed.

Lemma searchItems_cards req w : shop_cards (searchItems req w).2 = shop_cards w.
Proof. cards_all. Qed.

Lemma rating_cards req w : shop_cards (rating req w).2 = shop_cards w.
Proof. cards_all. Qed.

(** X20.  No handler makes, removes or moves a shop.  In a store where no
    two shops have one id, after any of the eight handlers, whatever the
    request and the answers of the store are, the shops are the same in
    number and order, each with the id, the name, the image, the city and
    the owner that it had: only the list of items of a shop can change. *)
Theorem handlers_keep_shops op req w :
  NoDup (s_id <$> w_shops w) →
  shop_cards (handle op req w).2 = shop_cards w.
Proof.
  intros Hnd. destruct op; cbn [handle].
  - apply addItem_cards, Hnd.
  - apply editItem_cards.
  - apply getItemById_cards.
  - apply deleteItem_cards, Hnd.
  - apply getItemByCity_cards.
  - apply getItemsByShop_cards.
  - apply searchItems_cards.
  - apply rating_cards.
Qed.

Lemma handlers_keep_shops_witness :
  shop_cards
    (handle AddItem (menu_request owner_id "" "Momo" "Snacks" 60%float)
       pune_world).2
    = [(shop_id, "Vingo Kitchen", "kitchen.png", "Pune", owner_id)].
Proof.
  rewrite (handlers_keep_shops AddItem
             (menu_request owner_id "" "Momo" "Snacks" 60%float) pune_world).
  - reflexivity.
  - apply NoDup_singleton.
Defined.

(** ** A store that rejects a call *)

Ltac rejected Hp Hf :=
  rewrite bind_run, (castObjectId_run _ _ _ Hp);
  rewrite bind_run, (await_store_rejects _ Hf).

(** X21.  When the store rejects the first call of a request, each of the
    eight handlers answers 500 with its own text and the error; nothing is
    written: the items and the shops are as they were, and so is the cache
    (for a cached read that has missed, its key stays without an entry).
    The requests are those that get as far as the store: ids that are well
    formed, a rating from 1 to 5, an upload that has not failed, a city
    made of literal ASCII characters, an ASCII query. *)
Theorem store_rejects_first_call w :
  head (w_faults w) = Some true →
  let failed (text : string) (r : Result * World) :=
    r.1 = Replied {| status := 500; body := BFailure text StoreError |} ∧
    store_state r.2 = store_state w in
  (∀ req image uid,
     upload_file req w = (Ret image, w) →
     parseObjectId (userId req) = Some uid →
     failed "add item error " (addItem req w) ∧
     w_cache (addItem req w).2 = w_cache w) ∧
  (∀ req image id,
     upload_file req w = (Ret image, w) →
     parseObjectId (params_itemId req) = Some id →
     failed "edit item error " (editItem req w) ∧
     w_cache (editItem req w).2 = w_cache w) ∧
  (∀ req id,
     parseObjectId (params_itemId req) = Some id →
     failed "get item error " (getItemById req w) ∧
     w_cache (getItemById req w).2 = w_cache w) ∧
  (∀ req id,
     parseObjectId (params_itemId req) = Some id →
     failed "delete item error " (deleteItem req w) ∧
     w_cache (deleteItem req w).2 = w_cache w) ∧
  (∀ req itemId r id,
     body_itemId req = Some itemId → body_rating req = Some r →
     (1 <=? r)%float = true → (r <=? 5)%float = true →
     parseObjectId itemId = Some id →
     failed "rating error " (rating req w) ∧
     w_cache (rating req w).2 = w_cache w) ∧
  (∀ req city,
     params_city req = Some city → city ≠ "" → literal city = true →
     (cache.get (city_cacheKey city) w).1 = Ret None →
     failed "get item by city error " (getItemByCity req w) ∧
     w_cache (getItemByCity req w).2 !! city_cacheKey city = None) ∧
  (∀ req id,
     parseObjectId (params_shopId req) = Some id →
     (cache.get (shop_cacheKey (params_shopId req)) w).1 = Ret None →
     failed "get item by shop error " (getItemsByShop req w) ∧
     w_cache (getItemsByShop req w).2 !! shop_cacheKey (params_shopId req)
       = None) ∧
  (∀ query city,
     query ≠ "" → city ≠ "" → literal city = true →
     ascii_only query = true →
     (cache.get (search_cacheKey city query) w).1 = Ret None →
     failed "search item  error "
       (searchItems (search_request (QString query) (QString city)) w) ∧
     w_cache (searchItems (search_request (QString query) (QString city)) w).2
       !! search_cacheKey city query = None).
Proof.
  intros Hf failed. subst failed. cbv beta.
  split; [|split; [|split; [|split; [|split; [|split; [|split]]]]]].
  - intros req image uid Hu Hp.
    assert (addItem req w
            = (Replied {| status := 500;
                          body := BFailure "add item error " StoreError |},
               served w)) as ->; [|repeat split].
    unfold addItem, try_catch. rewrite bind_run, Hu. cbv beta iota.
    rewrite bind_run. unfold Shop.findOne.
    rejected Hp Hf. reflexivity.
  - intros req image id Hu Hp.
    assert (editItem req w
            = (Replied {| status := 500;
                          body := BFailure "edit item error " StoreError |},
               served w)) as ->; [|repeat split].
    unfold editItem, try_catch. cbv zeta. rewrite bind_run, Hu. cbv beta iota.
    rewrite bind_run. unfold Item.findByIdAndUpdate.
    rejected Hp Hf. reflexivity.
  - intros req id Hp.
    assert (getItemById req w
            = (Replied {| status := 500;
                          body := BFailure "get item error " StoreError |},
               served w)) as ->; [|repeat split].
    unfold getItemById, try_catch. cbv zeta.
    rewrite bind_run. unfold Item.findById.
    rejected Hp Hf. reflexivity.
  - intros req id Hp.
    assert (deleteItem req w
            = (Replied {| status := 500;
                          body := BFailure "delete item error " StoreError |},
               served w)) as ->; [|repeat split].
    unfold deleteItem, try_catch. cbv zeta.
    rewrite bind_run. unfold Item.findByIdAndDelete.
    rejected Hp Hf. reflexivity.
  - intros req itemId r id Hid Hr H1 H5 Hp.
    assert (rating req w
            = (Replied {| status := 500;
                          body := BFailure "rating error " StoreError |},
               served w)) as ->; [|repeat split].
    unfold rating, try_catch. rewrite Hid, Hr.
    rewrite bool_decide_eq_false_2 by (eapply parse_nonempty; eassumption).
    rewrite (ge_one_truthy _ H1). cbn [orb].
    rewrite (leb_not_ltb _ _ H1), (leb_not_ltb _ _ H5). cbn [orb].
    rewrite bind_run. unfold Item.findById.
    rejected Hp Hf. reflexivity.
  - intros req city Hc Hne L Hmiss.
    destruct (cache_get_miss_state _ _ Hmiss)
      as (w1 & Hget & Hi & Hs & Hfs & Hn & Hk).
    assert (getItemByCity req w
            = (Replied {| status := 500;
                          body := BFailure "get item by city error " StoreError |},
               served w1)) as ->.
    { unfold getItemByCity, try_catch. rewrite Hc, (city_absent_false _ Hne).
      cbn [default from_option id]. rewrite (literal_ascii _ L). cbn [negb].
      rewrite bind_run, Hget. rewrite bind_run, (find_city_literal _ _ _ L).
      rewrite Hfs, Hf. reflexivity. }
    cbn [fst snd]. unfold store_state.
    change (w_items (served w1)) with (w_items w1).
    change (w_shops (served w1)) with (w_shops w1).
    rewrite Hi, Hs. repeat split. exact Hk.
  - intros req id Hp Hmiss.
    destruct (cache_get_miss_state _ _ Hmiss)
      as (w1 & Hget & Hi & Hs & Hfs & Hn & Hk).
    assert (∃ w2, getItemsByShop req w
            = (Replied {| status := 500;
                          body := BFailure "get item by shop error " StoreError |},
               w2) ∧ w_items w2 = w_items w1 ∧ w_shops w2 = w_shops w1 ∧
              w_cache w2 = w_cache w1) as (w2 & -> & Hi2 & Hs2 & Hc2).
    { unfold getItemsByShop, try_catch. cbv zeta.
      rewrite bind_run, Hget. rewrite bind_run. unfold promise_all.
      unfold Shop.findById at 1.
      rewrite <- Hfs in Hf. rejected Hp Hf.
      rewrite bind_run, (castObjectId_run _ _ _ Hp).
      unfold Item.find. rewrite bind_run. unfold await_store.
      destruct (head (w_faults (served w1))) as [[]|];
        eexists; (split; [reflexivity|]); repeat split. }
    cbn [fst snd]. unfold store_state. rewrite Hi2, Hs2, Hc2, Hi, Hs.
    repeat split. exact Hk.
  - intros query city Hq Hne L Aq Hmiss.
    destruct (cache_get_miss_state _ _ Hmiss)
      as (w1 & Hget & Hi & Hs & Hfs & Hn & Hk).
    assert (searchItems (search_request (QString query) (QString city)) w
            = (Replied {| status := 500;
                          body := BFailure "search item  error " StoreError |},
               served w1)) as ->.
    { unfold searchItems, try_catch.
      cbn [search_request query_query query_city query_absent].
      rewrite !bool_decide_eq_false_2 by assumption. cbn [orb].
      rewrite (literal_ascii _ L), Aq. cbn [andb negb].
      rewrite bind_run, Hget. rewrite bind_run, (find_city_literal _ _ _ L).
      rewrite Hfs, Hf. reflexivity. }
    cbn [fst snd]. unfold store_state.
    change (w_items (served w1)) with (w_items w1).
    change (w_shops (served w1)) with (w_shops w1).
    rewrite Hi, Hs. repeat split. exact Hk.
Qed.

Lemma store_rejects_first_call_witness :
  (rating (rating_request pizza_id 5%float) down_world).1
    = Replied {| status := 500; body := BFailure "rating error " StoreError |} ∧
  (getItemByCity (city_request "Pune") down_world).1
    = Replied {| status := 500;
                 body := BFailure "get item by city error " StoreError |} ∧
  w_items (rating (rating_request pizza_id 5%float) down_world).2
    = w_items pune_world.
Proof.
  destruct (store_rejects_first_call down_world eq_refl)
    as (_ & _ & _ & _ & Hr & Hc & _).
  destruct (Hr (rating_request pizza_id 5%float) pizza_id 5%float pizza_id)
    as [[E1 Hs] _]; [reflexivity..|].
  destruct (Hc (city_request "Pune") "Pune")
    as [[E2 _] _]; [reflexivity | discriminate | reflexivity | reflexivity |].
  split; [exact E1|]. split; [exact E2|].
  apply (f_equal fst) in Hs. exact Hs.
Defined.
